(** * The UDP input service (services/udp/service.go)

    A shallow embedding of the service: the [Service] struct, its lifecycle
    methods [Open] and [Close], the three worker loops [serve], [parser] and
    [writer], and the lazy storage initialisation [createInternalStorage].

    Sequential code is written in a small state monad over a [World] (the
    service, the socket it owns and the trace of calls made to the
    collaborators).  The places where the Go code can block (a [select], a
    network read, a channel send, a mutex, [wg.Wait]) split the loops into
    program points, and [exec] gives the interleaving semantics: one labelled
    step of one goroutine, or of the environment. *)

From Stdlib Require Import ZArith List String Bool Lia.
From Stdlib Require Strings.Byte.
From Stdlib Require Import DecimalString.
Local Open Scope string_scope.
Local Open Scope list_scope.
Import ListNotations.
Local Open Scope Z_scope.

(** ** Go base types *)

(** A Go [error] value; [None : option error] stands for [nil]. *)
Definition error := string.

Inductive Result (A : Type) : Type :=
| Ok (a : A)
| Err (e : error).
Arguments Ok {A} a.
Arguments Err {A} e.

(** [int64] arithmetic wraps around. *)
Definition wrap64 (z : Z) : Z := (z + 2 ^ 63) mod 2 ^ 64 - 2 ^ 63.

Definition in_int64 (z : Z) : Prop := - 2 ^ 63 <= z < 2 ^ 63.

(** [atomic.AddInt64(&x, delta)]: the new value of [x]. *)
Definition AddInt64 (x delta : Z) : Z := wrap64 (x + delta).

(** [len(l)] as an [int64]. *)
Definition len {A} (l : list A) : Z := Z.of_nat (List.length l).

(** A [chan struct{}] that is only ever closed, never sent on: the [done]
    field.  A receive from it is ready exactly when it has been closed; a
    receive from the nil channel blocks for ever. *)
Inductive Chan : Type := ChanNil | ChanOpen | ChanClosed.

Definition recv_ready (c : Chan) : bool :=
  match c with ChanClosed => true | _ => false end.

Definition is_nil (c : Chan) : bool :=
  match c with ChanNil => true | _ => false end.

(** ** Constants *)

Definition parserChanLen : Z := 1000.
Definition MaxUDPPayload : Z := 64 * 1024.

Definition statPointsReceived := "pointsRx".
Definition statBytesReceived := "bytesRx".
Definition statPointsParseFail := "pointsParseFail".
Definition statReadFail := "readFail".
Definition statBatchesTransmitted := "batchesTx".
Definition statPointsTransmitted := "pointsTx".
Definition statBatchesTransmitFail := "batchesTxFail".

(** ** Types of the collaborating packages *)

(** Modelled from the spec: [models.Point], whose declaration is not part of
    this package.  "A structured record (measurement name, tag set, field
    set, timestamp)".  The service never looks inside a point. *)
Record Point : Type := mkPoint {
  pt_name : string;
  pt_tags : list (string * string);
  pt_fields : list (string * string);
  pt_time : Z
}.

(** [models.ConsistencyLevel]; the writer only uses [ConsistencyLevelAny]. *)
Inductive ConsistencyLevel : Type :=
| ConsistencyLevelAny | ConsistencyLevelOne
| ConsistencyLevelQuorum | ConsistencyLevelAll.

(** Modelled from the spec: [Config] (config.go is not part of the sources).
    "bind address (string, required), target container identifier (string,
    required), sub-partition identifier (string, optional), decode precision,
    batch size threshold (int), batch pending threshold (int), batch timeout
    (duration), receive-buffer size hint (int, optional, 0 = use OS
    default)". *)
Record Config : Type := mkConfig {
  BindAddress : string;
  Database : string;
  RetentionPolicy : string;
  Precision : string;
  BatchSize : Z;
  BatchPending : Z;
  BatchTimeout : Z;
  ReadBuffer : Z
}.

Record UDPAddr : Type := mkUDPAddr { IP : string; Port : Z }.

(** A [*net.UDPConn] is a handle; the socket it denotes lives in the
    [World] below. *)
Record UDPConn : Type := mkUDPConn { LocalAddr : UDPAddr }.

(** Modelled from the spec: [tsdb.PointBatcher], consumed through its
    interface only.  "An input sink accepting one DataPoint at a time; an
    output source yielding completed Batches; a start operation that begins
    the internal timeout clock; a flush operation that forcibly emits any
    partially filled batch".  [buffered] holds the points accepted and not
    yet emitted, [out] the batches offered on [Out()]. *)
Record PointBatcher : Type := mkBatcher {
  b_size : Z;
  b_pending : Z;
  b_timeout : Z;
  started : bool;
  buffered : list Point;
  out : list (list Point)
}.

Definition NewPointBatcher (size pending timeout : Z) : PointBatcher :=
  mkBatcher size pending timeout false [] [].

Definition batcher_emit (b : PointBatcher) : PointBatcher :=
  match buffered b with
  | [] => b
  | _ :: _ =>
      mkBatcher (b_size b) (b_pending b) (b_timeout b) (started b)
                [] (out b ++ [buffered b])
  end.

Definition batcher_Start (b : PointBatcher) : PointBatcher :=
  mkBatcher (b_size b) (b_pending b) (b_timeout b) true (buffered b) (out b).

(** [b.In() <- p]: the point is buffered, and a batch is emitted as soon as
    the size threshold is reached. *)
Definition batcher_In (p : Point) (b : PointBatcher) : PointBatcher :=
  let b' := mkBatcher (b_size b) (b_pending b) (b_timeout b) (started b)
                      (buffered b ++ [p]) (out b) in
  if (0 <? b_size b) && (b_size b <=? len (buffered b')) then batcher_emit b'
  else b'.

Definition batcher_Flush (b : PointBatcher) : PointBatcher := batcher_emit b.

(** [<-b.Out()]: the first offered batch, if any. *)
Definition batcher_Out (b : PointBatcher) : option (list Point * PointBatcher) :=
  match out b with
  | [] => None
  | batch :: rest =>
      Some (batch, mkBatcher (b_size b) (b_pending b) (b_timeout b)
                             (started b) (buffered b) rest)
  end.

(** ** Statistics *)

Record Statistics : Type := mkStatistics {
  PointsReceived : Z;
  BytesReceived : Z;
  PointsParseFail : Z;
  ReadFail : Z;
  BatchesTransmitted : Z;
  PointsTransmitted : Z;
  BatchesTransmitFail : Z
}.

(** The fields of [Statistics], as the targets of [atomic.AddInt64]. *)
Inductive Counter : Type :=
| CPointsReceived | CBytesReceived | CPointsParseFail | CReadFail
| CBatchesTransmitted | CPointsTransmitted | CBatchesTransmitFail.

Definition counter (c : Counter) (st : Statistics) : Z :=
  match c with
  | CPointsReceived => PointsReceived st
  | CBytesReceived => BytesReceived st
  | CPointsParseFail => PointsParseFail st
  | CReadFail => ReadFail st
  | CBatchesTransmitted => BatchesTransmitted st
  | CPointsTransmitted => PointsTransmitted st
  | CBatchesTransmitFail => BatchesTransmitFail st
  end.

Definition add_counter (c : Counter) (d : Z) (st : Statistics) : Statistics :=
  match c with
  | CPointsReceived =>
      mkStatistics (AddInt64 (PointsReceived st) d) (BytesReceived st)
        (PointsParseFail st) (ReadFail st) (BatchesTransmitted st)
        (PointsTransmitted st) (BatchesTransmitFail st)
  | CBytesReceived =>
      mkStatistics (PointsReceived st) (AddInt64 (BytesReceived st) d)
        (PointsParseFail st) (ReadFail st) (BatchesTransmitted st)
        (PointsTransmitted st) (BatchesTransmitFail st)
  | CPointsParseFail =>
      mkStatistics (PointsReceived st) (BytesReceived st)
        (AddInt64 (PointsParseFail st) d) (ReadFail st) (BatchesTransmitted st)
        (PointsTransmitted st) (BatchesTransmitFail st)
  | CReadFail =>
      mkStatistics (PointsReceived st) (BytesReceived st)
        (PointsParseFail st) (AddInt64 (ReadFail st) d) (BatchesTransmitted st)
        (PointsTransmitted st) (BatchesTransmitFail st)
  | CBatchesTransmitted =>
      mkStatistics (PointsReceived st) (BytesReceived st)
        (PointsParseFail st) (ReadFail st) (AddInt64 (BatchesTransmitted st) d)
        (PointsTransmitted st) (BatchesTransmitFail st)
  | CPointsTransmitted =>
      mkStatistics (PointsReceived st) (BytesReceived st)
        (PointsParseFail st) (ReadFail st) (BatchesTransmitted st)
        (AddInt64 (PointsTransmitted st) d) (BatchesTransmitFail st)
  | CBatchesTransmitFail =>
      mkStatistics (PointsReceived st) (BytesReceived st)
        (PointsParseFail st) (ReadFail st) (BatchesTransmitted st)
        (PointsTransmitted st) (AddInt64 (BatchesTransmitFail st) d)
  end.

(** ** The diagnostic interface and the trace of observable calls *)

(** One constructor per method of the [Diagnostic] interface. *)
Inductive DiagCall : Type :=
| Started (bindAddress : string)
| DiagClosed
| CreateInternalStorageFailure (db : string) (err : error)
| PointWriterError (database : string) (err : error)
| ParseError (err : error)
| ReadFromError (err : error).

Inductive Event : Type :=
| EvLock | EvUnlock | EvRLock | EvRUnlock
| EvSetReady
| EvResolveUDPAddr (address : string) (r : Result UDPAddr)
| EvListenUDP (a : UDPAddr) (r : Result UDPConn)
| EvSetReadBuffer (n : Z) (r : option error)
| EvConnClose
| EvParsePoints (buf : list Byte.byte) (precision : string) (r : Result (list Point))
| EvBatcherStart
| EvBatcherIn (p : Point)
| EvBatcherFlush
| EvCreateDatabase (name : string) (r : option error)
| EvWritePoints (database retentionPolicy : string) (lvl : ConsistencyLevel)
                (points : list Point) (r : option error)
| EvDiag (d : DiagCall)
| EvAtomicAdd (c : Counter) (delta : Z)
| EvGo (goroutine : string).

Definition is_CreateDatabase (e : Event) : bool :=
  match e with EvCreateDatabase _ _ => true | _ => false end.
Definition is_WritePoints (e : Event) : bool :=
  match e with EvWritePoints _ _ _ _ _ => true | _ => false end.
Definition is_ParsePoints (e : Event) : bool :=
  match e with EvParsePoints _ _ _ => true | _ => false end.
Definition is_ResolveUDPAddr (e : Event) : bool :=
  match e with EvResolveUDPAddr _ _ => true | _ => false end.
Definition is_ListenUDP (e : Event) : bool :=
  match e with EvListenUDP _ _ => true | _ => false end.
Definition is_SetReadBuffer (e : Event) : bool :=
  match e with EvSetReadBuffer _ _ => true | _ => false end.
Definition is_Diag (e : Event) : bool :=
  match e with EvDiag _ => true | _ => false end.
Definition is_AtomicAdd (e : Event) : bool :=
  match e with EvAtomicAdd _ _ => true | _ => false end.

(** How many events of one kind a trace holds. *)
Definition calls (kind : Event -> bool) (tr : list Event) : nat :=
  List.length (filter kind tr).
Arguments calls kind tr : simpl never.

(** The collaborators.  Each answer may depend on how many times the
    collaborator has been called before (its first argument), which also
    stands for the passing of time ([time.Now()] in [parser]). *)
Record Env : Type := mkEnv {
  ResolveUDPAddr : nat -> string -> Result UDPAddr;
  ListenUDP : nat -> UDPAddr -> Result UDPConn;
  SetReadBuffer : nat -> UDPConn -> Z -> option error;
  ParsePointsWithPrecision : nat -> list Byte.byte -> string -> Result (list Point);
  CreateDatabase : nat -> string -> option error;
  WritePointsPrivileged :
    nat -> string -> string -> ConsistencyLevel -> list Point -> option error
}.

(** ** The service *)

Record Service : Type := mkService {
  conn : option UDPConn;
  addr : option UDPAddr;
  wg : Z;                          (* counter of the sync.WaitGroup *)
  mu : bool;                       (* is the RWMutex write-locked? *)
  ready : bool;                    (* Has the required database been created? *)
  done : Chan;                     (* Is the service closing or closed? *)
  parserChan : list (list Byte.byte);
  batcher : PointBatcher;
  config : Config;
  Diagnostic : bool;               (* is a Diagnostic installed (non-nil)? *)
  stats : Statistics;
  defaultTags : list (string * string)
}.

Definition with_conn (v : option UDPConn) (s : Service) : Service :=
  mkService v (addr s) (wg s) (mu s) (ready s) (done s) (parserChan s)
            (batcher s) (config s) (Diagnostic s) (stats s) (defaultTags s).
Definition with_addr (v : option UDPAddr) (s : Service) : Service :=
  mkService (conn s) v (wg s) (mu s) (ready s) (done s) (parserChan s)
            (batcher s) (config s) (Diagnostic s) (stats s) (defaultTags s).
Definition with_wg (v : Z) (s : Service) : Service :=
  mkService (conn s) (addr s) v (mu s) (ready s) (done s) (parserChan s)
            (batcher s) (config s) (Diagnostic s) (stats s) (defaultTags s).
Definition with_mu (v : bool) (s : Service) : Service :=
  mkService (conn s) (addr s) (wg s) v (ready s) (done s) (parserChan s)
            (batcher s) (config s) (Diagnostic s) (stats s) (defaultTags s).
Definition with_ready (v : bool) (s : Service) : Service :=
  mkService (conn s) (addr s) (wg s) (mu s) v (done s) (parserChan s)
            (batcher s) (config s) (Diagnostic s) (stats s) (defaultTags s).
Definition with_done (v : Chan) (s : Service) : Service :=
  mkService (conn s) (addr s) (wg s) (mu s) (ready s) v (parserChan s)
            (batcher s) (config s) (Diagnostic s) (stats s) (defaultTags s).
Definition with_parserChan (v : list (list Byte.byte)) (s : Service) : Service :=
  mkService (conn s) (addr s) (wg s) (mu s) (ready s) (done s) v
            (batcher s) (config s) (Diagnostic s) (stats s) (defaultTags s).
Definition with_batcher (v : PointBatcher) (s : Service) : Service :=
  mkService (conn s) (addr s) (wg s) (mu s) (ready s) (done s) (parserChan s)
            v (config s) (Diagnostic s) (stats s) (defaultTags s).
Definition with_Diagnostic (v : bool) (s : Service) : Service :=
  mkService (conn s) (addr s) (wg s) (mu s) (ready s) (done s) (parserChan s)
            (batcher s) (config s) v (stats s) (defaultTags s).
Definition with_stats (v : Statistics) (s : Service) : Service :=
  mkService (conn s) (addr s) (wg s) (mu s) (ready s) (done s) (parserChan s)
            (batcher s) (config s) (Diagnostic s) v (defaultTags s).

(** [NewService].  [Config.WithDefaults] is declared in config.go, which is
    not part of the sources, and is taken as a parameter. *)
Definition NewService (WithDefaults : Config -> Config) (c : Config) : Service :=
  let d := WithDefaults c in
  mkService None None 0 false false ChanNil []
    (NewPointBatcher (BatchSize d) (BatchPending d) (BatchTimeout d))
    d false (mkStatistics 0 0 0 0 0 0 0) [("bind", BindAddress d)].

(** [With] sets the diagnostic on the service. *)
Definition With (s : Service) : Service := with_Diagnostic true s.

(** [closed]: a non-blocking receive from [s.done], then the nil test. *)
Definition closed (s : Service) : bool :=
  if recv_ready (done s) then true (* Service is closing. *)
  else is_nil (done s).

Definition Addr (s : Service) : option UDPAddr := addr s.

Definition Batcher (s : Service) : PointBatcher := batcher s.

(** The [Values] of the one [models.Statistic] that [Statistics] returns. *)
Definition Statistics_Values (s : Service) : list (string * Z) :=
  [ (statPointsReceived, PointsReceived (stats s));
    (statBytesReceived, BytesReceived (stats s));
    (statPointsParseFail, PointsParseFail (stats s));
    (statReadFail, ReadFail (stats s));
    (statBatchesTransmitted, BatchesTransmitted (stats s));
    (statPointsTransmitted, PointsTransmitted (stats s));
    (statBatchesTransmitFail, BatchesTransmitFail (stats s)) ].

(** ** Goroutines and the world *)

(** Where the receiver ([serve]) stands. *)
Inductive ServePc : Type :=
| SrvStopped                       (* not running: never started, or returned *)
| SrvStart                         (* launched, before [s.batcher.Start()] *)
| SrvSelect                        (* at the [select] that polls [s.done] *)
| SrvRead                          (* in [s.conn.ReadFromUDP(buf)] *)
| SrvSend (bufCopy : list Byte.byte). (* at [s.parserChan <- bufCopy] *)

Inductive ParserPc : Type :=
| ParStopped
| ParSelect.                       (* at the [select] *)

Inductive WriterPc : Type :=
| WrStopped
| WrSelect                         (* at the [select] *)
| WrInit (batch : list Point)      (* entering [createInternalStorage] *)
| WrCreate (batch : list Point)    (* at [s.MetaClient.CreateDatabase] *)
| WrSetReady (batch : list Point)  (* at the [s.mu.Lock()] that guards [ready] *)
| WrWrite (batch : list Point).    (* at [WritePointsPrivileged] *)

(** Where a running call of [Close] stands. *)
Inductive ClosePc : Type :=
| CloseIdle                        (* no call of [Close] in progress *)
| CloseConn                        (* [s.done] closed, before [s.conn.Close()] *)
| CloseFlush                       (* before [s.batcher.Flush()] *)
| CloseWait.                       (* at [s.wg.Wait()] *)

Record World : Type := mkWorld {
  svc : Service;
  sock_open : bool;                          (* the socket behind [s.conn] *)
  sock_rx : list (Result (list Byte.byte));  (* what its next reads return *)
  trace : list Event;
  srv : ServePc;
  par : ParserPc;
  wri : WriterPc;
  closing : ClosePc
}.

Definition with_svc (v : Service) (w : World) : World :=
  mkWorld v (sock_open w) (sock_rx w) (trace w) (srv w) (par w) (wri w) (closing w).
Definition with_sock (o : bool) (rx : list (Result (list Byte.byte))) (w : World) : World :=
  mkWorld (svc w) o rx (trace w) (srv w) (par w) (wri w) (closing w).
Definition with_trace (v : list Event) (w : World) : World :=
  mkWorld (svc w) (sock_open w) (sock_rx w) v (srv w) (par w) (wri w) (closing w).
Definition with_srv (v : ServePc) (w : World) : World :=
  mkWorld (svc w) (sock_open w) (sock_rx w) (trace w) v (par w) (wri w) (closing w).
Definition with_par (v : ParserPc) (w : World) : World :=
  mkWorld (svc w) (sock_open w) (sock_rx w) (trace w) (srv w) v (wri w) (closing w).
Definition with_wri (v : WriterPc) (w : World) : World :=
  mkWorld (svc w) (sock_open w) (sock_rx w) (trace w) (srv w) (par w) v (closing w).
Definition with_closing (v : ClosePc) (w : World) : World :=
  mkWorld (svc w) (sock_open w) (sock_rx w) (trace w) (srv w) (par w) (wri w) v.

(** A service that has just been constructed, and nothing else. *)
Definition new_world (s : Service) : World :=
  mkWorld s false [] [] SrvStopped ParStopped WrStopped CloseIdle.

(** ** The monad of sequential code

    A computation takes the world and either blocks ([None]: it cannot go on
    without another goroutine) or returns a value and the new world. *)

Definition M (A : Type) : Type := World -> option (A * World).

Definition ret {A} (a : A) : M A := fun w => Some (a, w).

Definition bind {A B} (m : M A) (k : A -> M B) : M B :=
  fun w => match m w with
           | None => None
           | Some (a, w') => k a w'
           end.

Definition block {A} : M A := fun _ => None.

Declare Scope go_scope.
Delimit Scope go_scope with go.
Notation "x <- m ;; k" := (bind m (fun x => k))
  (at level 61, m at next level, right associativity) : go_scope.
Notation "m ;; k" := (bind m (fun _ => k))
  (at level 61, right associativity) : go_scope.
Local Open Scope go_scope.

Definition getSvc : M Service := fun w => Some (svc w, w).
Definition getTrace : M (list Event) := fun w => Some (trace w, w).
Definition modSvc (f : Service -> Service) : M unit :=
  fun w => Some (tt, with_svc (f (svc w)) w).
Definition emit (e : Event) : M unit :=
  fun w => Some (tt, with_trace (trace w ++ [e]) w).

(** [s.mu]: a writer excludes everybody; the read sections of this file are
    entered and left within one step, so no reader is ever held across
    steps. *)
Definition Lock : M unit :=
  s <- getSvc ;;
  if mu s then block else (modSvc (with_mu true) ;; emit EvLock).
Definition Unlock : M unit := modSvc (with_mu false) ;; emit EvUnlock.
Definition RLock : M unit :=
  s <- getSvc ;; if mu s then block else emit EvRLock.
Definition RUnlock : M unit := emit EvRUnlock.

(** [atomic.AddInt64(&s.stats.c, delta)]. *)
Definition atomicAdd (c : Counter) (delta : Z) : M unit :=
  modSvc (fun s => with_stats (add_counter c delta (stats s)) s) ;;
  emit (EvAtomicAdd c delta).

(** [if s.Diagnostic != nil { s.Diagnostic.d }]. *)
Definition diag (d : DiagCall) : M unit :=
  s <- getSvc ;; if Diagnostic s then emit (EvDiag d) else ret tt.

Definition wgAdd (n : Z) : M unit := modSvc (fun s => with_wg (wg s + n) s).
Definition wgDone : M unit := wgAdd (-1).
Definition wgWait : M unit :=
  s <- getSvc ;; if wg s =? 0 then ret tt else block.

(** ** Calls to the collaborators *)

Definition itoa (z : Z) : string := NilZero.string_of_int (Z.to_int z).

Definition UDPAddr_String (a : UDPAddr) : string :=
  String.append (IP a) (String.append ":" (itoa (Port a))).

Definition callResolveUDPAddr (env : Env) (address : string) : M (Result UDPAddr) :=
  tr <- getTrace ;;
  let r := ResolveUDPAddr env (calls is_ResolveUDPAddr tr) address in
  emit (EvResolveUDPAddr address r) ;; ret r.

Definition callListenUDP (env : Env) (a : UDPAddr) : M (Result UDPConn) :=
  tr <- getTrace ;;
  let r := ListenUDP env (calls is_ListenUDP tr) a in
  emit (EvListenUDP a r) ;;
  match r with
  | Ok _ => (fun w => Some (tt, with_sock true [] w)) ;; ret r
  | Err _ => ret r
  end.

Definition callSetReadBuffer (env : Env) (c : UDPConn) (n : Z) : M (option error) :=
  tr <- getTrace ;;
  let r := SetReadBuffer env (calls is_SetReadBuffer tr) c n in
  emit (EvSetReadBuffer n r) ;; ret r.

Definition callParsePoints (env : Env) (buf : list Byte.byte) (precision : string)
  : M (Result (list Point)) :=
  tr <- getTrace ;;
  let r := ParsePointsWithPrecision env (calls is_ParsePoints tr) buf precision in
  emit (EvParsePoints buf precision r) ;; ret r.

Definition callCreateDatabase (env : Env) (name : string) : M (option error) :=
  tr <- getTrace ;;
  let r := CreateDatabase env (calls is_CreateDatabase tr) name in
  emit (EvCreateDatabase name r) ;; ret r.

Definition callWritePoints (env : Env) (database retentionPolicy : string)
    (lvl : ConsistencyLevel) (points : list Point) : M (option error) :=
  tr <- getTrace ;;
  let r := WritePointsPrivileged env (calls is_WritePoints tr)
                                 database retentionPolicy lvl points in
  emit (EvWritePoints database retentionPolicy lvl points r) ;; ret r.

(** [s.conn.Close()]. *)
Definition connClose : M unit :=
  (fun w => Some (tt, with_sock false (sock_rx w) w)) ;; emit EvConnClose.

(** [s.conn.ReadFromUDP(buf)]: fails at once on a closed socket, returns the
    next datagram (or network error) of an open one, and blocks while an
    open socket has nothing to deliver. *)
Definition ReadFromUDP : M (Result (list Byte.byte)) :=
  fun w =>
    if sock_open w then
      match sock_rx w with
      | [] => None
      | r :: rest => Some (r, with_sock true rest w)
      end
    else Some (Err "use of closed network connection", w).

(** [s.batcher.In() <- p]. *)
Definition batcherIn (p : Point) : M unit :=
  modSvc (fun s => with_batcher (batcher_In p (batcher s)) s) ;;
  emit (EvBatcherIn p).

(** [<-s.batcher.Out()], as a case of a [select]: blocks while no batch is
    offered. *)
Definition recvBatch : M (list Point) :=
  s <- getSvc ;;
  match batcher_Out (batcher s) with
  | None => block
  | Some (batch, b') => modSvc (with_batcher b') ;; ret batch
  end.

(** [<-s.parserChan]. *)
Definition recvParserChan : M (list Byte.byte) :=
  s <- getSvc ;;
  match parserChan s with
  | [] => block
  | buf :: rest => modSvc (with_parserChan rest) ;; ret buf
  end.

(** [<-s.done], as a case of a [select]. *)
Definition recvDone : M unit :=
  s <- getSvc ;; if recv_ready (done s) then ret tt else block.

Definition setSrv (pc : ServePc) : M unit := fun w => Some (tt, with_srv pc w).
Definition setPar (pc : ParserPc) : M unit := fun w => Some (tt, with_par pc w).
Definition setWri (pc : WriterPc) : M unit := fun w => Some (tt, with_wri pc w).
Definition setClosing (pc : ClosePc) : M unit :=
  fun w => Some (tt, with_closing pc w).

(** [go s.serve(); go s.parser(); go s.writer()]. *)
Definition go_serve : M unit := setSrv SrvStart ;; emit (EvGo "serve").
Definition go_parser : M unit := setPar ParSelect ;; emit (EvGo "parser").
Definition go_writer : M unit := setWri WrSelect ;; emit (EvGo "writer").

(** ** Open *)

Definition Open (env : Env) : M (option error) :=
  Lock ;;
  err <- (s <- getSvc ;;
          if negb (closed s) then ret None (* Already open. *)
          else
            modSvc (with_done ChanOpen) ;;
            if String.eqb (BindAddress (config s)) "" then
              ret (Some "bind address has to be specified in config")
            else if String.eqb (Database (config s)) "" then
              ret (Some "database has to be specified in config")
            else
              ra <- callResolveUDPAddr env (BindAddress (config s)) ;;
              match ra with
              | Err e =>
                  modSvc (with_addr None) ;;
                  ret (Some (String.append "failed to resolve UDP address "
                              (String.append (BindAddress (config s))
                                 (String.append ": " e))))
              | Ok a =>
                  modSvc (with_addr (Some a)) ;;
                  rc <- callListenUDP env a ;;
                  match rc with
                  | Err e =>
                      modSvc (with_conn None) ;;
                      ret (Some (String.append
                                   "failed to set up UDP listener at address "
                                   (String.append (UDPAddr_String a)
                                      (String.append ": " e))))
                  | Ok c =>
                      modSvc (with_conn (Some c)) ;;
                      eb <- (if negb (ReadBuffer (config s) =? 0) then
                               callSetReadBuffer env c (ReadBuffer (config s))
                             else ret None) ;;
                      match eb with
                      | Some e =>
                          ret (Some (String.append
                                       "failed to set UDP read buffer to "
                                       (String.append
                                          (itoa (ReadBuffer (config s)))
                                          (String.append ": " e))))
                      | None =>
                          diag (Started (BindAddress (config s))) ;;
                          wgAdd 3 ;;
                          go_serve ;; go_parser ;; go_writer ;;
                          ret None
                      end
                  end
              end) ;;
  Unlock ;;
  ret err.

(** ** Close

    [Close] keeps [s.mu] locked from its first line to its return, and waits
    for the workers in between; its four stretches are the steps of a
    running call. *)

(** Up to and including [close(s.done)]; [true] when the call has returned
    already ("Already closed."). *)
Definition Close_enter : M bool :=
  Lock ;;
  s <- getSvc ;;
  if closed s then Unlock ;; ret true
  else modSvc (with_done ChanClosed) ;; setClosing CloseConn ;; ret false.

Definition Close_conn : M unit :=
  s <- getSvc ;;
  (match conn s with
   | Some _ => connClose
   | None => ret tt
   end) ;;
  setClosing CloseFlush.

Definition Close_flush : M unit :=
  modSvc (fun s => with_batcher (batcher_Flush (batcher s)) s) ;;
  emit EvBatcherFlush ;;
  setClosing CloseWait.

(** From [s.wg.Wait()] to the return. *)
Definition Close_finish : M (option error) :=
  wgWait ;;
  (* Release all remaining resources. *)
  modSvc (with_done ChanNil) ;;
  modSvc (with_conn None) ;;
  diag DiagClosed ;;
  setClosing CloseIdle ;;
  Unlock ;;
  ret None.

(** The whole call, when nothing else has to run in between. *)
Definition Close : M (option error) :=
  returned <- Close_enter ;;
  if returned then ret None
  else Close_conn ;; Close_flush ;; Close_finish.

(** [Closed] returns true if the service is currently closed. *)
Definition Closed : M bool :=
  Lock ;; s <- getSvc ;; Unlock ;; ret (closed s).

(** [Ready] returns true if the internal storage has been created
    successfully. *)
Definition Ready : M bool :=
  RLock ;; s <- getSvc ;; RUnlock ;; ret (ready s).

(** ** createInternalStorage *)

(** The final [s.mu.Lock(); s.ready = true; s.mu.Unlock()]. *)
Definition setReady : M unit :=
  Lock ;; modSvc (with_ready true) ;; emit EvSetReady ;; Unlock.

Definition createInternalStorage (env : Env) : M (option error) :=
  rdy <- Ready ;;
  if rdy then ret None
  else
    s <- getSvc ;;
    err <- callCreateDatabase env (Database (config s)) ;;
    match err with
    | Some e => ret (Some e)
    | None =>
        (* The service is now ready. *)
        setReady ;; ret None
    end.

(** ** The workers *)

(** Which ready case a blocking [select] takes. *)
Inductive Pick : Type := PickWork | PickDone.

(** *** writer *)

(** The call of [WritePointsPrivileged] and the counters after it. *)
Definition writer_write (env : Env) (batch : list Point) : M unit :=
  s <- getSvc ;;
  err <- callWritePoints env (Database (config s)) (RetentionPolicy (config s))
                         ConsistencyLevelAny batch ;;
  match err with
  | None =>
      atomicAdd CBatchesTransmitted 1 ;;
      atomicAdd CPointsTransmitted (len batch)
  | Some e =>
      diag (PointWriterError (Database (config s)) e) ;;
      atomicAdd CBatchesTransmitFail 1
  end.

(** The body of [case batch := <-s.batcher.Out()]. *)
Definition writer_batch (env : Env) (batch : list Point) : M unit :=
  (* Will attempt to create database if not yet created. *)
  err <- createInternalStorage env ;;
  match err with
  | Some e =>
      s <- getSvc ;;
      diag (CreateInternalStorageFailure (Database (config s)) e)
      (* continue *)
  | None => writer_write env batch
  end.

(** The loop, along the cases its [select] takes; it goes on looping when
    the list is used up. *)
Fixpoint writer (env : Env) (sel : list Pick) : M unit :=
  match sel with
  | [] => ret tt
  | PickWork :: sel' =>
      batch <- recvBatch ;; writer_batch env batch ;; writer env sel'
  | PickDone :: _ => recvDone ;; wgDone ;; setWri WrStopped
  end.

(** The same loop cut at the points where it can block. *)
Definition writer_step (env : Env) (c : Pick) : M unit :=
  w <- (fun w => Some (w, w)) ;;
  match wri w with
  | WrStopped => block
  | WrSelect =>
      match c with
      | PickWork => batch <- recvBatch ;; setWri (WrInit batch)
      | PickDone => recvDone ;; wgDone ;; setWri WrStopped
      end
  | WrInit batch =>
      rdy <- Ready ;;
      setWri (if rdy then WrWrite batch else WrCreate batch)
  | WrCreate batch =>
      s <- getSvc ;;
      err <- callCreateDatabase env (Database (config s)) ;;
      match err with
      | Some e =>
          diag (CreateInternalStorageFailure (Database (config s)) e) ;;
          setWri WrSelect
      | None => setWri (WrSetReady batch)
      end
  | WrSetReady batch => setReady ;; setWri (WrWrite batch)
  | WrWrite batch => writer_write env batch ;; setWri WrSelect
  end.

(** *** parser *)

Fixpoint forward (points : list Point) : M unit :=
  match points with
  | [] => ret tt
  | point :: rest => batcherIn point ;; forward rest
  end.

(** The body of [case buf := <-s.parserChan]. *)
Definition parser_datagram (env : Env) (buf : list Byte.byte) : M unit :=
  s <- getSvc ;;
  r <- callParsePoints env buf (Precision (config s)) ;;
  match r with
  | Err e =>
      atomicAdd CPointsParseFail 1 ;;
      diag (ParseError e)
      (* continue *)
  | Ok points =>
      forward points ;;
      atomicAdd CPointsReceived (len points)
  end.
Arguments parser_datagram env buf _ : simpl never.

Definition parser_step (env : Env) (c : Pick) : M unit :=
  w <- (fun w => Some (w, w)) ;;
  match par w with
  | ParStopped => block
  | ParSelect =>
      match c with
      | PickDone => recvDone ;; wgDone ;; setPar ParStopped
      | PickWork => buf <- recvParserChan ;; parser_datagram env buf
      end
  end.


(** *** serve *)

(** What follows a read that returned [r]. *)
Definition serve_after_read (r : Result (list Byte.byte)) : M unit :=
  match r with
  | Err e =>
      atomicAdd CReadFail 1 ;;
      diag (ReadFromError e) ;;
      setSrv SrvSelect (* continue *)
  | Ok data =>
      let n := Z.min (len data) MaxUDPPayload in
      atomicAdd CBytesReceived n ;;
      setSrv (SrvSend (firstn (Z.to_nat n) data))
  end.

(** [s.parserChan <- bufCopy] on a channel of capacity [parserChanLen]. *)
Definition sendParserChan (bufCopy : list Byte.byte) : M unit :=
  s <- getSvc ;;
  if len (parserChan s) <? parserChanLen then
    modSvc (with_parserChan (parserChan s ++ [bufCopy]))
  else block.

Definition serve_step : M unit :=
  w <- (fun w => Some (w, w)) ;;
  match srv w with
  | SrvStopped => block
  | SrvStart =>
      modSvc (fun s => with_batcher (batcher_Start (batcher s)) s) ;;
      emit EvBatcherStart ;;
      setSrv SrvSelect
  | SrvSelect =>
      if recv_ready (done (svc w)) then
        (* We closed the connection, time to go. *)
        wgDone ;; setSrv SrvStopped
      else
        (* Keep processing. *)
        setSrv SrvRead
  | SrvRead => r <- ReadFromUDP ;; serve_after_read r
  | SrvSend bufCopy => sendParserChan bufCopy ;; setSrv SrvSelect
  end.

(** ** The interleaving semantics *)

Inductive Action : Type :=
| CallOpen                           (* a client calls [Open], which runs to its return *)
| CallClose                          (* a client calls [Close], up to [close(s.done)] *)
| CloseStep                          (* the running [Close] goes on *)
| ServeStep
| ParserStep (c : Pick)
| WriterStep (c : Pick)
| NetDeliver (r : Result (list Byte.byte)) (* the network hands the socket something to read *)
| BatcherEmit.                       (* the batcher's timeout elapses *)

Definition drop {A} (m : M A) : World -> option World :=
  fun w => match m w with
           | None => None
           | Some (_, w') => Some w'
           end.

Definition exec (env : Env) (a : Action) (w : World) : option World :=
  match a with
  | CallOpen => drop (Open env) w
  | CallClose => drop Close_enter w
  | CloseStep =>
      match closing w with
      | CloseIdle => None
      | CloseConn => drop Close_conn w
      | CloseFlush => drop Close_flush w
      | CloseWait => drop Close_finish w
      end
  | ServeStep => drop serve_step w
  | ParserStep c => drop (parser_step env c) w
  | WriterStep c => drop (writer_step env c) w
  | NetDeliver r =>
      if sock_open w then Some (with_sock true (sock_rx w ++ [r]) w) else None
  | BatcherEmit =>
      match buffered (batcher (svc w)) with
      | [] => None
      | _ :: _ =>
          Some (with_svc (with_batcher (batcher_emit (batcher (svc w))) (svc w)) w)
      end
  end.

(** A schedule is a list of actions; it runs as far as every action is
    enabled. *)
Fixpoint run (env : Env) (sched : list Action) (w : World) : option World :=
  match sched with
  | [] => Some w
  | a :: sched' =>
      match exec env a w with
      | None => None
      | Some w' => run env sched' w'
      end
  end.

Definition reachable (env : Env) (w0 w : World) : Prop :=
  exists sched, run env sched w0 = Some w.

(** The batches handed to [WritePointsPrivileged] along a trace, in order. *)
Definition write_attempts (tr : list Event) : list (list Point) :=
  flat_map (fun e => match e with
                     | EvWritePoints _ _ _ points _ => [points]
                     | _ => []
                     end) tr.

(** The notifications received by the diagnostic along a trace, in order. *)
Definition diagnostics (tr : list Event) : list DiagCall :=
  flat_map (fun e => match e with EvDiag d => [d] | _ => [] end) tr.

(** Has the writer read [ready] as false and not called [CreateDatabase]
    yet? *)
Definition create_pending (w : World) : bool :=
  match wri w with
  | WrCreate _ => true
  | _ => false
  end.

(** ** A concrete service, for the scenarios below *)

Definition example_point (name : string) : Point :=
  mkPoint name [] [("value", "1")] 0.

Definition example_addr : UDPAddr := mkUDPAddr "127.0.0.1" 8089.

(** A network that always binds, a decoder that finds two records in every
    non-empty datagram, and a metadata client and a points writer whose
    answers are given per call. *)
Definition example_env (create write : nat -> option error) : Env :=
  mkEnv (fun _ _ => Ok example_addr)
        (fun _ a => Ok (mkUDPConn a))
        (fun _ _ _ => None)
        (fun _ buf _ =>
           match buf with
           | [] => Err "missing fields"
           | _ :: _ => Ok [example_point "cpu"; example_point "mem"]
           end)
        (fun n _ => create n)
        (fun n _ _ _ _ => write n).

Definition always_ok : nat -> option error := fun _ => None.
Definition always_fails : nat -> option error := fun _ => Some "timeout".
Definition fails_twice : nat -> option error :=
  fun n => if Nat.ltb n 2 then Some "timeout" else None.

Definition example_config : Config :=
  mkConfig "127.0.0.1:8089" "telemetry" "" "n" 5 10 1000 0.

Definition example_service : Service :=
  With (NewService (fun c => c) example_config).

Definition example_world : World := new_world example_service.

(** A service configured without a bind address. *)
Definition unbound_config : Config :=
  mkConfig "" "telemetry" "" "n" 5 10 1000 0.

Definition unbound_world : World :=
  new_world (NewService (fun c => c) unbound_config).

(** The service opened, with the receiver blocked in its read. *)
Definition open_idle : list Action := [CallOpen; ServeStep; ServeStep].

(** One datagram received, parsed and buffered in the batcher; then [Close]
    fires the signal, closes the socket and flushes; every worker takes the
    termination case, and [Close] returns. *)
Definition until_flushed : list Action :=
  [CallOpen; ServeStep; ServeStep; NetDeliver (Ok [Byte.x61]);
   ServeStep; ServeStep; ParserStep PickWork;
   CallClose; CloseStep; CloseStep;
   ServeStep; ParserStep PickDone].

Definition close_in_flight : list Action :=
  until_flushed ++ [WriterStep PickDone; CloseStep].

(** One batch goes through a freshly opened service, which makes it ready. *)
Definition first_batch : list Action :=
  [CallOpen; ServeStep; ServeStep; NetDeliver (Ok [Byte.x61]);
   ServeStep; ServeStep; ParserStep PickWork; BatcherEmit;
   WriterStep PickWork; WriterStep PickWork; WriterStep PickWork;
   WriterStep PickWork; WriterStep PickWork].

(** The service is closed and opened again, and a second batch goes
    through. *)
Definition reopen_second_batch : list Action :=
  [CallClose; CloseStep; CloseStep;
   ServeStep; ParserStep PickDone; WriterStep PickDone; CloseStep;
   CallOpen; ServeStep; ServeStep; NetDeliver (Ok [Byte.x62]);
   ServeStep; ServeStep; ParserStep PickWork; BatcherEmit;
   WriterStep PickWork; WriterStep PickWork; WriterStep PickWork].

(** The writer holding one batch, on a service that is not ready. *)
Definition writer_holding (batch : list Point) : World :=
  with_wri (WrInit batch) example_world.

(** The worlds these two schedules lead to. *)
Definition after_first_batch : World :=
  Eval vm_compute in
    match run (example_env always_ok always_ok) first_batch example_world with
    | Some w => w
    | None => example_world
    end.

Definition after_reopen : World :=
  Eval vm_compute in
    match run (example_env always_ok always_ok) reopen_second_batch
              after_first_batch with
    | Some w => w
    | None => example_world
    end.

(** ** Bookkeeping of the running workers *)

(** How many of the three workers are running. *)
Definition running (w : World) : Z :=
  (match srv w with SrvStopped => 0 | _ => 1 end)
  + (match par w with ParStopped => 0 | _ => 1 end)
  + (match wri w with WrStopped => 0 | _ => 1 end).

(** Is a call of [Close] between its [Lock] and its return? *)
Definition holds_lock (w : World) : bool :=
  match closing w with
  | CloseIdle => false
  | _ => true
  end.

(** What every world reached from a new service satisfies: the wait group
    counts the running workers; [s.mu] is write-locked between steps exactly
    while a call of [Close] is under way, and [s.done] is closed exactly
    then; a nil [s.done] goes with no worker and no connection; an open
    socket is referred to by [s.conn]; and [Close] has closed the socket
    before it flushes and waits. *)
Definition consistent (w : World) : Prop :=
  wg (svc w) = running w /\
  mu (svc w) = holds_lock w /\
  (recv_ready (done (svc w)) = holds_lock w) /\
  (done (svc w) = ChanNil -> running w = 0 /\ conn (svc w) = None) /\
  (sock_open w = true -> conn (svc w) <> None) /\
  (closing w = CloseFlush \/ closing w = CloseWait -> sock_open w = false).

(** The datagrams handed to the decoder along a trace, in order. *)
Definition parsed (tr : list Event) : list (list Byte.byte) :=
  flat_map (fun e => match e with
                     | EvParsePoints buf _ _ => [buf]
                     | _ => []
                     end) tr.



(** A network on which the read buffer cannot be set. *)
Definition no_read_buffer_env : Env :=
  mkEnv (fun _ _ => Ok example_addr)
        (fun _ a => Ok (mkUDPConn a))
        (fun _ _ _ => Some "operation not permitted")
        (fun _ _ _ => Ok [])
        (fun _ _ => None)
        (fun _ _ _ _ _ => None).

Definition read_buffer_config : Config :=
  mkConfig "127.0.0.1:8089" "telemetry" "" "n" 5 10 1000 4096.

Definition read_buffer_world : World :=
  new_world (With (NewService (fun c => c) read_buffer_config)).

(** The writer takes the flushed batch while [Close] waits. *)
Definition writer_takes_flushed : list Action :=
  until_flushed ++ [WriterStep PickWork].

(** The receiver holding a datagram in front of a full queue. *)
Definition full_queue_world : World :=
  with_srv (SrvSend [Byte.x61])
    (with_par ParSelect
       (with_svc (with_parserChan (repeat [Byte.x62] 1000) example_service)
                 example_world)).



(** * Proofs *)

(** ** Tactics and basic facts *)

(** Opens a world and its service into their fields. *)
Ltac break_world w :=
  let s := fresh "s" in
  destruct w as [s sopen rx tr spc ppc wpc cpc];
  destruct s as [cn ad wgc m rdy dn pch bt cfg dg st tags]; cbn in *.

Ltac go_unfold :=
  unfold writer_step, parser_step, serve_step, writer_batch, Close, Open,
    createInternalStorage, Close_enter, Close_conn, Close_flush,
    Close_finish, Closed, Ready, setReady, writer_write,
    serve_after_read, sendParserChan, ReadFromUDP,
    callCreateDatabase, callWritePoints, callParsePoints,
    callResolveUDPAddr, callListenUDP, callSetReadBuffer, connClose,
    batcherIn, recvBatch, recvParserChan, recvDone, atomicAdd, diag,
    wgDone, wgAdd, wgWait, Lock, Unlock, RLock, RUnlock,
    go_serve, go_parser, go_writer, setSrv, setPar, setWri, setClosing,
    emit, modSvc, getSvc, getTrace, drop, bind, ret, block in *.

Lemma calls_app kind (tr1 tr2 : list Event) :
  calls kind (tr1 ++ tr2) = (calls kind tr1 + calls kind tr2)%nat.
Proof. unfold calls. rewrite filter_app, length_app. reflexivity. Qed.

Lemma calls_nil kind : calls kind [] = 0%nat.
Proof. reflexivity. Qed.

Lemma calls_cons kind e (tr : list Event) :
  calls kind (e :: tr) = if kind e then S (calls kind tr) else calls kind tr.
Proof. unfold calls; cbn. destruct (kind e); reflexivity. Qed.

(** Counts the events of a trace given as appended literal pieces. *)
Ltac calls_norm :=
  repeat rewrite calls_app; repeat rewrite calls_cons;
  repeat rewrite calls_nil; cbn.

Lemma write_attempts_app tr1 tr2 :
  write_attempts (tr1 ++ tr2) = write_attempts tr1 ++ write_attempts tr2.
Proof. apply flat_map_app. Qed.

Lemma diagnostics_app tr1 tr2 :
  diagnostics (tr1 ++ tr2) = diagnostics tr1 ++ diagnostics tr2.
Proof. apply flat_map_app. Qed.

Lemma wrap64_exact z : in_int64 z -> wrap64 z = z.
Proof.
  unfold in_int64, wrap64. intros H.
  rewrite Z.mod_small by lia. lia.
Qed.

Lemma AddInt64_exact x d : in_int64 (x + d) -> AddInt64 x d = x + d.
Proof. apply wrap64_exact. Qed.

(** [closed] is false exactly on an open channel, which [close] accepts. *)
Lemma closed_false_iff s : closed s = false <-> done s = ChanOpen.
Proof. unfold closed. destruct (done s); cbn; split; congruence. Qed.

Lemma run_app env sched1 sched2 w :
  run env (sched1 ++ sched2) w =
  match run env sched1 w with
  | None => None
  | Some w' => run env sched2 w'
  end.
Proof.
  revert w. induction sched1 as [|a sched1 IH]; intros w; cbn; [reflexivity|].
  destruct (exec env a w); [apply IH | reflexivity].
Qed.

(** ** Open and Close *)

(** C6.  Repeating [Open] on an open service, or [Close] on a closed one
    (the never-opened service included), returns nil and changes nothing:
    the service, the socket and the workers are as before, and the only
    calls made are the lock and unlock of [s.mu]. *)
Theorem Open_Close_idempotent env w :
  mu (svc w) = false ->
  (closed (svc w) = false ->
   Open env w = Some (None, with_trace (trace w ++ [EvLock; EvUnlock]) w)) /\
  (closed (svc w) = true ->
   Close w = Some (None, with_trace (trace w ++ [EvLock; EvUnlock]) w)).
Proof.
  intros Hmu; break_world w; subst; split; intros Hc;
    unfold closed in Hc; go_unfold; unfold closed; cbn in *;
    destruct dn; try discriminate; cbn;
    rewrite <- app_assoc; reflexivity.
Qed.

Lemma Open_Close_idempotent_witness :
  Close example_world
  = Some (None, with_trace (trace example_world ++ [EvLock; EvUnlock])
                  example_world) /\
  Open (example_env always_ok always_ok) after_first_batch
  = Some (None, with_trace (trace after_first_batch ++ [EvLock; EvUnlock])
                  after_first_batch).
Proof.
  destruct (Open_Close_idempotent (example_env always_ok always_ok)
              example_world eq_refl) as [_ Hclose].
  destruct (Open_Close_idempotent (example_env always_ok always_ok)
              after_first_batch eq_refl) as [Hopen _].
  split; [apply Hclose | apply Hopen]; reflexivity.
Defined.

(** A configuration error is returned after [s.done] has been made. *)
Lemma Open_config_error env w :
  mu (svc w) = false ->
  closed (svc w) = true ->
  BindAddress (config (svc w)) = "" \/ Database (config (svc w)) = "" ->
  exists e,
    Open env w
    = Some (Some e, with_trace (trace w ++ [EvLock; EvUnlock])
                      (with_svc (with_done ChanOpen (svc w)) w)).
Proof.
  intros Hmu Hc Hcfg; break_world w; subst.
  unfold closed in Hc; go_unfold; unfold closed; cbn in *.
  destruct dn; try discriminate; cbn;
    destruct (String.eqb_spec (BindAddress cfg) "") as [Hb|Hb]; cbn;
    try (eexists; rewrite <- app_assoc; reflexivity);
    destruct (String.eqb_spec (Database cfg) "") as [Hd|Hd]; cbn;
    try (eexists; rewrite <- app_assoc; reflexivity);
    destruct Hcfg; contradiction.
Qed.

(** C5.  [Open] on a never-opened service without a bind address returns
    the configuration error, but only after it has made [s.done]: no
    listener is bound and no worker is started, yet [closed] now reports
    false, and a second [Open] returns nil as if the service were open. *)
Theorem Open_unbound_not_closed_after_error :
  closed (svc unbound_world) = true /\
  exists w',
    Open (example_env always_ok always_ok) unbound_world
    = Some (Some "bind address has to be specified in config", w') /\
    closed (svc w') = false /\
    done (svc w') = ChanOpen /\
    conn (svc w') = None /\
    (srv w', par w', wri w') = (SrvStopped, ParStopped, WrStopped) /\
    Open (example_env always_ok always_ok) w'
    = Some (None, with_trace (trace w' ++ [EvLock; EvUnlock]) w').
Proof.
  split; [reflexivity|].
  eexists; split; [reflexivity|].
  repeat split.
Qed.

(** ** Lazy storage initialisation *)

(** On a ready service [createInternalStorage] only reads the flag. *)
Lemma createInternalStorage_ready env w :
  mu (svc w) = false ->
  ready (svc w) = true ->
  createInternalStorage env w
  = Some (None, with_trace (trace w ++ [EvRLock; EvRUnlock]) w).
Proof.
  intros Hmu Hr; break_world w; subst; go_unfold; cbn.
  rewrite <- app_assoc; reflexivity.
Qed.

(** On a service that is not ready it calls [CreateDatabase] once, and sets
    the flag, between [Lock] and [Unlock], exactly when the call succeeds. *)
Lemma createInternalStorage_not_ready env w :
  mu (svc w) = false ->
  ready (svc w) = false ->
  let db := Database (config (svc w)) in
  let r := CreateDatabase env (calls is_CreateDatabase (trace w)) db in
  createInternalStorage env w
  = Some (r,
          match r with
          | Some _ =>
              with_trace (trace w ++ [EvRLock; EvRUnlock; EvCreateDatabase db r]) w
          | None =>
              with_trace (trace w ++ [EvRLock; EvRUnlock; EvCreateDatabase db r;
                                      EvLock; EvSetReady; EvUnlock])
                (with_svc (with_ready true (svc w)) w)
          end).
Proof.
  intros Hmu Hr; break_world w; subst; go_unfold; cbn.
  assert (Hc : calls is_CreateDatabase ((tr ++ [EvRLock]) ++ [EvRUnlock])
               = calls is_CreateDatabase tr).
  { calls_norm; lia. }
  rewrite Hc.
  destruct (CreateDatabase env (calls is_CreateDatabase tr) (Database cfg)); cbn;
    repeat rewrite <- app_assoc; reflexivity.
Qed.




(** ** The parser *)

(** Forwarding never blocks in this model and keeps the order of the
    points. *)
Lemma forward_all points : forall w,
  forward points w
  = Some (tt,
          with_trace (trace w ++ map EvBatcherIn points)
            (with_svc
               (with_batcher
                  (fold_left (fun b p => batcher_In p b) points (batcher (svc w)))
                  (svc w)) w)).
Proof.
  induction points as [|p points IH]; intros w.
  - break_world w. rewrite app_nil_r. reflexivity.
  - cbn [forward]. unfold bind at 1.
    replace (batcherIn p w)
      with (Some (tt, with_trace (trace w ++ [EvBatcherIn p])
                        (with_svc (with_batcher (batcher_In p (batcher (svc w)))
                                     (svc w)) w)))
      by reflexivity.
    rewrite IH. break_world w. rewrite <- app_assoc. reflexivity.
Qed.

Lemma calls_forwarded points :
  calls is_CreateDatabase (map EvBatcherIn points) = 0%nat.
Proof.
  induction points as [|p points IH]; cbn [map];
    [reflexivity | rewrite calls_cons; exact IH].
Qed.

Lemma write_attempts_forwarded points :
  write_attempts (map EvBatcherIn points) = [].
Proof. induction points as [|p points IH]; cbn; [reflexivity | exact IH]. Qed.

(** The body of the parser's work case touches the batcher, the counters
    and the trace only, and calls neither the metadata client nor the points
    writer. *)
Lemma parser_datagram_frame env buf w w' :
  parser_datagram env buf w = Some (tt, w') ->
  exists b' st' evs,
    w' = with_trace (trace w ++ evs)
           (with_svc (with_stats st' (with_batcher b' (svc w))) w) /\
    calls is_CreateDatabase evs = 0%nat /\
    write_attempts evs = [] /\
    (forall e, In (EvDiag (ReadFromError e)) evs -> False).
Proof.
  unfold parser_datagram, callParsePoints, getSvc, getTrace.
  unfold bind at 1 2 3 4. cbn [svc trace].
  destruct (ParsePointsWithPrecision env _ buf _) as [points|e] eqn:Hp.
  - unfold emit at 1, ret at 1. unfold bind at 1. rewrite forward_all.
    break_world w. go_unfold. cbn. intros H. injection H as <-.
    eexists _, _, (_ :: map EvBatcherIn points ++ [_]).
    split; [rewrite <- !app_assoc; reflexivity|].
    clear. repeat split.
    + rewrite calls_cons, calls_app, calls_forwarded. reflexivity.
    + cbn [write_attempts flat_map]. fold (write_attempts (map EvBatcherIn points ++ [EvAtomicAdd CPointsReceived (len points)])).
      rewrite write_attempts_app, write_attempts_forwarded. reflexivity.
    + intros e [H|H]; [discriminate|]. apply in_app_or in H.
      destruct H as [H|[H|[]]]; [|discriminate].
      apply in_map_iff in H. destruct H as (p & Hp & _). discriminate.
  - break_world w. go_unfold. cbn. destruct dg; cbn; intros H; injection H as <-;
      [eexists _, _, [_; _; _] | eexists _, _, [_; _]];
      (split; [rewrite <- !app_assoc; reflexivity|]);
      repeat split; intros e' H; cbn in H; intuition discriminate.
Qed.



(** ** The writer *)

(** What the call of [WritePointsPrivileged] leaves behind. *)
Lemma writer_write_returns env batch w :
  let db := Database (config (svc w)) in
  let rp := RetentionPolicy (config (svc w)) in
  let r := WritePointsPrivileged env (calls is_WritePoints (trace w))
                                 db rp ConsistencyLevelAny batch in
  exists w',
    writer_write env batch w = Some (tt, w') /\
    trace w' = trace w ++ [EvWritePoints db rp ConsistencyLevelAny batch r]
                       ++ match r with
                          | None => [EvAtomicAdd CBatchesTransmitted 1;
                                     EvAtomicAdd CPointsTransmitted (len batch)]
                          | Some e =>
                              (if Diagnostic (svc w)
                               then [EvDiag (PointWriterError db e)] else [])
                              ++ [EvAtomicAdd CBatchesTransmitFail 1]
                          end /\
    stats (svc w')
    = match r with
      | None => add_counter CPointsTransmitted (len batch)
                  (add_counter CBatchesTransmitted 1 (stats (svc w)))
      | Some _ => add_counter CBatchesTransmitFail 1 (stats (svc w))
      end /\
    with_stats (stats (svc w)) (svc w') = svc w /\
    (sock_open w', sock_rx w', srv w', par w', wri w', closing w')
    = (sock_open w, sock_rx w, srv w, par w, wri w, closing w).
Proof.
  intros db rp r; subst db rp r. break_world w. go_unfold. cbn.
  destruct (WritePointsPrivileged _ _ _ _ _ _) as [e|]; cbn;
    [destruct dg; cbn|]; (eexists; split; [reflexivity|]); cbn;
    rewrite <- ?app_assoc; cbn; repeat split.
Qed.

(** A batch taken on a ready service goes straight to the write. *)
Lemma writer_batch_ready env batch w :
  mu (svc w) = false ->
  ready (svc w) = true ->
  writer_batch env batch w
  = writer_write env batch (with_trace (trace w ++ [EvRLock; EvRUnlock]) w).
Proof.
  intros Hmu Hr. unfold writer_batch. unfold bind at 1.
  rewrite (createInternalStorage_ready env w Hmu Hr). reflexivity.
Qed.

(** On a ready service the writer's loop hands every batch it takes to
    [WritePointsPrivileged], one call per batch, whatever the earlier calls
    returned. *)
Lemma writer_attempts_every_batch env bs : forall rest w,
  mu (svc w) = false ->
  ready (svc w) = true ->
  out (batcher (svc w)) = bs ++ rest ->
  exists w',
    writer env (repeat PickWork (List.length bs)) w = Some (tt, w') /\
    write_attempts (trace w') = write_attempts (trace w) ++ bs /\
    out (batcher (svc w')) = rest /\
    mu (svc w') = false /\ ready (svc w') = true.
Proof.
  induction bs as [|b bs IH]; intros rest w Hmu Hr Hout; cbn [List.length repeat writer].
  - exists w. rewrite app_nil_r. repeat split; auto.
  - unfold bind at 1.
    assert (E1 : recvBatch w
                 = Some (b, with_svc (with_batcher
                                        (mkBatcher (b_size (batcher (svc w)))
                                           (b_pending (batcher (svc w)))
                                           (b_timeout (batcher (svc w)))
                                           (started (batcher (svc w)))
                                           (buffered (batcher (svc w)))
                                           (bs ++ rest)) (svc w)) w)).
    { break_world w. go_unfold. unfold batcher_Out. cbn. rewrite Hout. reflexivity. }
    rewrite E1. unfold bind at 1.
    match goal with |- context [writer_batch env b ?w1] => set (W1 := w1) end.
    assert (Hmu1 : mu (svc W1) = false) by (subst W1; break_world w; assumption).
    assert (Hr1 : ready (svc W1) = true) by (subst W1; break_world w; assumption).
    rewrite (writer_batch_ready env b W1 Hmu1 Hr1).
    destruct (writer_write_returns env b
                (with_trace (trace W1 ++ [EvRLock; EvRUnlock]) W1))
      as (w2 & Hw & Htr & _ & Hsvc & _).
    rewrite Hw.
    assert (Hs2 : mu (svc w2) = false /\ ready (svc w2) = true /\
                  out (batcher (svc w2)) = bs ++ rest).
    { pose proof (f_equal mu Hsvc) as Hm.
      pose proof (f_equal ready Hsvc) as Hrd.
      pose proof (f_equal (fun s => out (batcher s)) Hsvc) as Ho.
      cbn in Hm, Hrd, Ho. rewrite Hm, Hrd, Ho. subst W1. cbn. auto. }
    destruct Hs2 as (Hmu2 & Hr2 & Hout2).
    destruct (IH rest w2 Hmu2 Hr2 Hout2) as (w' & Hrun & Hatt & Hout' & Hmu' & Hr').
    exists w'. split; [exact Hrun|]. repeat split; auto.
    rewrite Hatt, Htr. subst W1. cbn [trace with_trace with_svc].
    rewrite !write_attempts_app. cbn.
    destruct (WritePointsPrivileged _ _ _ _ _ _); cbn;
      [destruct (Diagnostic _); cbn|]; rewrite ?app_nil_r, <- ?app_assoc; reflexivity.
Qed.

(** C9.  The write of one batch.  [WritePointsPrivileged] is called once.
    When it fails, [BatchesTransmitFail] is increased by 1, the diagnostic
    (when one is installed) is told, and [BatchesTransmitted] and
    [PointsTransmitted] stay as they were; when it succeeds,
    [BatchesTransmitted] is increased by 1 and [PointsTransmitted] by the
    length of the batch.  Either way the writer is back at its [select], and
    every batch it takes next is handed to [WritePointsPrivileged] in
    turn. *)
Theorem writer_write_failure_is_per_batch env batch w :
  let db := Database (config (svc w)) in
  let rp := RetentionPolicy (config (svc w)) in
  let r := WritePointsPrivileged env (calls is_WritePoints (trace w))
                                 db rp ConsistencyLevelAny batch in
  let st := stats (svc w) in
  exists w',
    writer_write env batch w = Some (tt, w') /\
    write_attempts (trace w') = write_attempts (trace w) ++ [batch] /\
    (forall c,
        exec env (WriterStep c) (with_wri (WrWrite batch) w)
        = Some (with_wri WrSelect w')) /\
    match r with
    | Some e =>
        BatchesTransmitFail (stats (svc w')) = AddInt64 (BatchesTransmitFail st) 1 /\
        (in_int64 (BatchesTransmitFail st + 1) ->
         BatchesTransmitFail (stats (svc w')) = BatchesTransmitFail st + 1) /\
        BatchesTransmitted (stats (svc w')) = BatchesTransmitted st /\
        PointsTransmitted (stats (svc w')) = PointsTransmitted st /\
        diagnostics (trace w')
        = diagnostics (trace w)
          ++ (if Diagnostic (svc w) then [PointWriterError db e] else [])
    | None =>
        BatchesTransmitted (stats (svc w')) = AddInt64 (BatchesTransmitted st) 1 /\
        PointsTransmitted (stats (svc w'))
        = AddInt64 (PointsTransmitted st) (len batch) /\
        (in_int64 (BatchesTransmitted st + 1) ->
         in_int64 (PointsTransmitted st + len batch) ->
         BatchesTransmitted (stats (svc w')) = BatchesTransmitted st + 1 /\
         PointsTransmitted (stats (svc w')) = PointsTransmitted st + len batch) /\
        BatchesTransmitFail (stats (svc w')) = BatchesTransmitFail st /\
        diagnostics (trace w') = diagnostics (trace w)
    end /\
    (forall bs rest,
        mu (svc w) = false -> ready (svc w) = true ->
        out (batcher (svc w)) = bs ++ rest ->
        exists w'',
          writer env (repeat PickWork (List.length bs)) w' = Some (tt, w'') /\
          write_attempts (trace w'') = write_attempts (trace w) ++ batch :: bs).
Proof.
  intros db rp r st.
  destruct (writer_write_returns env batch w) as (w' & Hw & Htr & Hst & Hsvc & Hpc).
  fold db rp r in Htr, Hst.
  exists w'. split; [exact Hw|].
  assert (Hatt : write_attempts (trace w') = write_attempts (trace w) ++ [batch]).
  { rewrite Htr, !write_attempts_app. cbn.
    destruct r; cbn; [destruct (Diagnostic _); cbn|]; reflexivity. }
  split; [exact Hatt|]. split.
  - intros c. clear - Hw.
    break_world w. go_unfold. cbn in *.
    destruct (WritePointsPrivileged _ _ _ _ _ _); cbn in *;
      [destruct dg; cbn in *|]; injection Hw as <-; reflexivity.
  - split.
    + rewrite Hst, Htr, !diagnostics_app. subst st. destruct r as [e|]; cbn.
      * destruct (Diagnostic _); cbn; repeat split; apply AddInt64_exact.
      * rewrite app_nil_r. repeat split; apply AddInt64_exact; assumption.
    + intros bs rest Hmu Hr Hout.
      pose proof (f_equal mu Hsvc) as Hm.
      pose proof (f_equal ready Hsvc) as Hrd.
      pose proof (f_equal (fun s => out (batcher s)) Hsvc) as Ho.
      cbn in Hm, Hrd, Ho.
      destruct (writer_attempts_every_batch env bs rest w') as (w'' & Hrun & Hatt' & _).
      * congruence.
      * congruence.
      * congruence.
      * exists w''. split; [exact Hrun|]. rewrite Hatt', Hatt, <- app_assoc. reflexivity.
Qed.

(** C4, as the code has it.  A batch whose storage initialisation fails is
    dropped: the diagnostic (when one is installed) is told, the batch is
    neither written nor put back, the flag stays false, the writer returns
    to its [select], and none of the seven counters of [Statistics]
    changes. *)
Theorem writer_batch_init_failure env batch w e :
  mu (svc w) = false ->
  ready (svc w) = false ->
  CreateDatabase env (calls is_CreateDatabase (trace w))
                 (Database (config (svc w))) = Some e ->
  let db := Database (config (svc w)) in
  exists w',
    writer_batch env batch w = Some (tt, w') /\
    stats (svc w') = stats (svc w) /\
    trace w' = trace w ++ [EvRLock; EvRUnlock; EvCreateDatabase db (Some e)]
                       ++ (if Diagnostic (svc w)
                           then [EvDiag (CreateInternalStorageFailure db e)]
                           else []) /\
    write_attempts (trace w') = write_attempts (trace w) /\
    batcher (svc w') = batcher (svc w) /\
    ready (svc w') = false /\
    run env [WriterStep PickWork; WriterStep PickWork] (with_wri (WrInit batch) w)
    = Some (with_wri WrSelect w').
Proof.
  intros Hmu Hr Hc db; subst db.
  unfold writer_batch. unfold bind at 1.
  rewrite (createInternalStorage_not_ready env w Hmu Hr). cbn zeta. rewrite Hc.
  break_world w. subst. go_unfold. cbn.
  assert (Hn : calls is_CreateDatabase ((tr ++ [EvRLock]) ++ [EvRUnlock])
               = calls is_CreateDatabase tr) by (calls_norm; lia).
  rewrite Hn, Hc. cbn.
  destruct dg; cbn; (eexists; split; [reflexivity|]); cbn;
    rewrite ?write_attempts_app, <- ?app_assoc, ?app_nil_r; cbn;
    rewrite ?app_nil_r; repeat split.
Qed.

Lemma writer_batch_init_failure_witness :
  exists w',
    writer_batch (example_env always_fails always_ok)
                 [example_point "cpu"] example_world = Some (tt, w') /\
    stats (svc w') = stats (svc example_world) /\
    diagnostics (trace w') = [CreateInternalStorageFailure "telemetry" "timeout"].
Proof.
  destruct (writer_batch_init_failure (example_env always_fails always_ok)
              [example_point "cpu"] example_world "timeout"
              eq_refl eq_refl eq_refl)
    as (w' & Hrun & Hst & Htr & _).
  exists w'. split; [exact Hrun|]. split; [exact Hst|].
  rewrite Htr. reflexivity.
Defined.

(** C4, as stated, fails: after a batch whose initialisation failed, no
    counter of [Statistics] has been increased. *)
Lemma init_failure_increments_no_counter :
  exists w',
    writer_batch (example_env always_fails always_ok)
                 [example_point "cpu"] example_world = Some (tt, w') /\
    In (EvCreateDatabase "telemetry" (Some "timeout")) (trace w') /\
    ~ exists c : Counter,
        counter c (stats (svc w')) = counter c (stats (svc example_world)) + 1.
Proof.
  eexists. split; [reflexivity|]. split.
  - cbn. auto.
  - intros [c Hc]. destruct c; cbn in Hc; discriminate.
Qed.

(** The scenario of the metadata client failing twice and then succeeding:
    two batches are dropped and reported, the third is written, and the
    service is ready. *)
Example init_fails_twice_then_succeeds :
  let b1 := [example_point "a"] in
  let b2 := [example_point "b"] in
  let b3 := [example_point "c"; example_point "d"] in
  let w := with_svc
             (with_batcher (mkBatcher 5 10 1000 true [] [b1; b2; b3])
                           example_service) example_world in
  match writer (example_env fails_twice always_ok)
               [PickWork; PickWork; PickWork] w with
  | None => False
  | Some (_, w') =>
      calls is_CreateDatabase (trace w') = 3%nat /\
      diagnostics (trace w')
      = [CreateInternalStorageFailure "telemetry" "timeout";
         CreateInternalStorageFailure "telemetry" "timeout"] /\
      write_attempts (trace w') = [b3] /\
      stats (svc w') = mkStatistics 0 0 0 0 1 2 0 /\
      ready (svc w') = true /\
      out (batcher (svc w')) = []
  end.
Proof. vm_compute. repeat split. Qed.

(** ** Invariants of the interleaving semantics *)

(** Splits a hypothesis that an operation returned along the tests the
    operation makes. *)
Ltac split_run H :=
  repeat match type of H with
         | context [match ?x with _ => _ end] =>
             lazymatch x with
             | context [match _ with _ => _ end] => fail
             | _ => destruct x eqn:?; cbn in H
             end
         end;
  try discriminate.

(** Replaces a world returned by the parser's work case by its shape. *)
Ltac frame_parser :=
  match goal with
  | Hq : parser_datagram _ _ _ = Some (?u, _) |- _ =>
      destruct u;
      let b' := fresh "b'" in
      let st' := fresh "st'" in
      let evs := fresh "evs" in
      let Hw := fresh "Hw" in
      let Hcr := fresh "Hcr" in
      let Hwa := fresh "Hwa" in
      let Hrd := fresh "Hrd" in
      apply parser_datagram_frame in Hq;
      destruct Hq as (b' & st' & evs & Hw & Hcr & Hwa & Hrd);
      cbn in Hw; subst
  end.

(** No step resets the flag. *)
Lemma exec_keeps_ready env a w w' :
  exec env a w = Some w' ->
  ready (svc w) = true ->
  ready (svc w') = true.
Proof.
  intros H Hr. break_world w. subst.
  destruct a; cbn in H; go_unfold; unfold closed in H; cbn in H;
    split_run H; injection H as <-; try frame_parser; reflexivity.
Qed.

(** While the flag is set the writer is never about to call
    [CreateDatabase]. *)
Lemma exec_keeps_create_pending env a w w' :
  exec env a w = Some w' ->
  (ready (svc w) = true -> create_pending w = false) ->
  (ready (svc w') = true -> create_pending w' = false).
Proof.
  intros H Hinv. break_world w. unfold create_pending in *. cbn in *.
  destruct a; cbn in H; go_unfold; unfold closed in H; cbn in H;
    split_run H; injection H as <-; try frame_parser; cbn; subst;
    try reflexivity; try assumption; try discriminate; auto.
Qed.

Lemma exec_ready_no_create env a w w' :
  exec env a w = Some w' ->
  ready (svc w) = true ->
  create_pending w = false ->
  calls is_CreateDatabase (trace w') = calls is_CreateDatabase (trace w).
Proof.
  intros H Hr Hp. break_world w. unfold create_pending in *. cbn in *. subst.
  destruct a; cbn in H; go_unfold; unfold closed in H; cbn in H;
    split_run H; injection H as <-; try frame_parser; cbn;
    calls_norm; try reflexivity; try lia; try discriminate.
Qed.

Lemma run_ready_no_create env sched : forall w w',
  run env sched w = Some w' ->
  ready (svc w) = true ->
  create_pending w = false ->
  ready (svc w') = true /\
  create_pending w' = false /\
  calls is_CreateDatabase (trace w') = calls is_CreateDatabase (trace w).
Proof.
  induction sched as [|a sched IH]; intros w w' H Hr Hp; cbn in H.
  - injection H as <-. auto.
  - destruct (exec env a w) as [w1|] eqn:E; [|discriminate].
    pose proof (exec_keeps_ready env a w w1 E Hr) as Hr1.
    pose proof (exec_keeps_create_pending env a w w1 E (fun _ => Hp) Hr1) as Hp1.
    pose proof (exec_ready_no_create env a w w1 E Hr Hp) as Hc1.
    destruct (IH w1 w' H Hr1 Hp1) as (Hr' & Hp' & Hc').
    repeat split; auto. congruence.
Qed.

Lemma run_keeps_create_pending env sched : forall w w',
  run env sched w = Some w' ->
  (ready (svc w) = true -> create_pending w = false) ->
  (ready (svc w') = true -> create_pending w' = false).
Proof.
  induction sched as [|a sched IH]; intros w w' H Hinv; cbn in H.
  - injection H as <-. assumption.
  - destruct (exec env a w) as [w1|] eqn:E; [|discriminate].
    apply (IH w1 w' H). eapply exec_keeps_create_pending; eauto.
Qed.

(** C10.  Along every execution of a service, from its construction on: once
    the flag is set it stays set through every later step, [Close] and a
    following [Open] included; [CreateDatabase] is not called again; and
    [Ready], whenever the lock lets it run, returns true. *)
Theorem ready_is_monotone env s sched1 w1 sched2 w2 :
  run env sched1 (new_world s) = Some w1 ->
  ready (svc w1) = true ->
  run env sched2 w1 = Some w2 ->
  ready (svc w2) = true /\
  calls is_CreateDatabase (trace w2) = calls is_CreateDatabase (trace w1) /\
  (mu (svc w2) = false ->
   Ready w2 = Some (true, with_trace (trace w2 ++ [EvRLock; EvRUnlock]) w2)).
Proof.
  intros H1 Hr H2.
  assert (Hp : create_pending w1 = false).
  { apply (run_keeps_create_pending env sched1 (new_world s) w1 H1); [|exact Hr].
    reflexivity. }
  destruct (run_ready_no_create env sched2 w1 w2 H2 Hr Hp) as (Hr2 & _ & Hc).
  repeat split; auto.
  intros Hmu. break_world w2. subst. go_unfold. cbn.
  rewrite <- app_assoc. reflexivity.
Qed.

Lemma ready_is_monotone_witness :
  ready (svc after_reopen) = true /\
  calls is_CreateDatabase (trace after_reopen) = 1%nat.
Proof.
  assert (H1 : run (example_env always_ok always_ok) first_batch
                   (new_world example_service) = Some after_first_batch)
    by (vm_compute; reflexivity).
  assert (H2 : run (example_env always_ok always_ok) reopen_second_batch
                   after_first_batch = Some after_reopen)
    by (vm_compute; reflexivity).
  destruct (ready_is_monotone _ _ _ _ _ _ H1 eq_refl H2) as (Hr & Hc & _).
  split; [exact Hr | rewrite Hc; reflexivity].
Defined.

(** ** Termination and the waits of the workers *)

(** C7, as the code has it.  Once [s.done] is closed, the parser and the
    writer, waiting at their [select], can each take the termination case,
    and so can the receiver at its polling [select].  The receiver inside
    [ReadFromUDP] is different: its step is disabled exactly while the
    socket is open with nothing to read, whether or not [s.done] is closed,
    and it is the closing of the socket, which [Close] does next, that makes
    the read return; the receiver is then back at its polling [select]. *)
Theorem workers_wait_for_work_or_done env w :
  recv_ready (done (svc w)) = true ->
  (par w = ParSelect ->
   exists w', exec env (ParserStep PickDone) w = Some w' /\ par w' = ParStopped) /\
  (wri w = WrSelect ->
   exists w', exec env (WriterStep PickDone) w = Some w' /\ wri w' = WrStopped) /\
  (srv w = SrvSelect ->
   exists w', exec env ServeStep w = Some w' /\ srv w' = SrvStopped) /\
  (srv w = SrvRead ->
   (exec env ServeStep w = None <-> sock_open w = true /\ sock_rx w = [])) /\
  (srv w = SrvRead -> closing w = CloseConn -> conn (svc w) <> None ->
   exists w1 w2,
     exec env CloseStep w = Some w1 /\ sock_open w1 = false /\
     exec env ServeStep w1 = Some w2 /\ srv w2 = SrvSelect).
Proof.
  intros Hd. break_world w. split; [|split; [|split; [|split]]].
  - intros ->. go_unfold. cbn. rewrite Hd. cbn. eauto.
  - intros ->. go_unfold. cbn. rewrite Hd. cbn. eauto.
  - intros ->. go_unfold. cbn. rewrite Hd. cbn. eauto.
  - intros ->. split.
    + go_unfold. cbn. intros H.
      destruct sopen; cbn in H; [|destruct dg; discriminate].
      destruct rx as [|[data|e] rx]; cbn in H;
        [auto | discriminate | destruct dg; discriminate].
    + intros [-> ->]. reflexivity.
  - intros -> -> Hc. destruct cn as [c|]; [|contradiction].
    go_unfold. cbn.
    destruct dg; cbn; do 2 eexists; repeat (split; [reflexivity|]); reflexivity.
Qed.

Lemma workers_wait_for_work_or_done_witness :
  match run (example_env always_ok always_ok)
            (open_idle ++ [CallClose]) example_world with
  | Some w => exists w', exec (example_env always_ok always_ok)
                              (WriterStep PickDone) w = Some w' /\
                         wri w' = WrStopped
  | None => False
  end.
Proof.
  destruct (run (example_env always_ok always_ok) (open_idle ++ [CallClose])
                example_world) as [w|] eqn:H;
    [|vm_compute in H; discriminate].
  assert (Hd : recv_ready (done (svc w)) = true)
    by (vm_compute in H; injection H as <-; reflexivity).
  assert (Hw : wri w = WrSelect)
    by (vm_compute in H; injection H as <-; reflexivity).
  destruct (workers_wait_for_work_or_done (example_env always_ok always_ok) w Hd)
    as (_ & Hwri & _).
  exact (Hwri Hw).
Defined.

(** C7, as stated, fails: after [Close] has closed [s.done] the receiver is
    still inside [ReadFromUDP] on the open, idle socket and cannot move; no
    race with the termination signal takes place there. *)
Lemma receiver_blocked_in_read_after_done :
  match run (example_env always_ok always_ok)
            (open_idle ++ [CallClose]) example_world with
  | Some w =>
      srv w = SrvRead /\
      recv_ready (done (svc w)) = true /\
      (sock_open w, sock_rx w) = (true, []) /\
      exec (example_env always_ok always_ok) ServeStep w = None
  | None => False
  end.
Proof. vm_compute. repeat split. Qed.

(** ** Read errors *)

(** C8, as the code has it.  A read that returns an error, because the
    socket has been closed or because the network reported one, increases
    [ReadFail] by 1 and is reported to the diagnostic (when one is
    installed), whether or not [s.done] is closed; the receiver then returns
    to its polling [select], where a closed [s.done] makes it leave without
    counting anything more. *)
Theorem read_error_is_counted env w e :
  srv w = SrvRead ->
  (sock_open w = false /\ e = "use of closed network connection") \/
  (sock_open w = true /\ exists rest, sock_rx w = Err e :: rest) ->
  exists w',
    exec env ServeStep w = Some w' /\
    ReadFail (stats (svc w')) = AddInt64 (ReadFail (stats (svc w))) 1 /\
    (in_int64 (ReadFail (stats (svc w)) + 1) ->
     ReadFail (stats (svc w')) = ReadFail (stats (svc w)) + 1) /\
    diagnostics (trace w')
    = diagnostics (trace w)
      ++ (if Diagnostic (svc w) then [ReadFromError e] else []) /\
    srv w' = SrvSelect /\
    done (svc w') = done (svc w) /\
    (recv_ready (done (svc w)) = true ->
     exists w'',
       exec env ServeStep w' = Some w'' /\
       srv w'' = SrvStopped /\
       stats (svc w'') = stats (svc w') /\
       trace w'' = trace w').
Proof.
  intros Hs Hr. break_world w. subst.
  destruct Hr as [[-> ->]|[-> [rest ->]]];
    go_unfold; cbn; destruct dg; cbn;
    (eexists; split; [reflexivity|]); cbn;
    rewrite ?diagnostics_app; cbn; rewrite ?app_nil_r;
    repeat split; try apply AddInt64_exact;
    intros Hd; rewrite Hd; cbn; eauto.
Qed.

Lemma read_error_is_counted_witness :
  match run (example_env always_ok always_ok)
            (open_idle ++ [CallClose; CloseStep]) example_world with
  | Some w =>
      exists w',
        exec (example_env always_ok always_ok) ServeStep w = Some w' /\
        ReadFail (stats (svc w')) = AddInt64 (ReadFail (stats (svc w))) 1
  | None => False
  end.
Proof.
  destruct (run (example_env always_ok always_ok)
                (open_idle ++ [CallClose; CloseStep]) example_world)
    as [w|] eqn:H; [|vm_compute in H; discriminate].
  assert (Hs : srv w = SrvRead)
    by (vm_compute in H; injection H as <-; reflexivity).
  assert (Ho : sock_open w = false)
    by (vm_compute in H; injection H as <-; reflexivity).
  destruct (read_error_is_counted (example_env always_ok always_ok) w
              "use of closed network connection" Hs
              (or_introl (conj Ho eq_refl)))
    as (w' & Hstep & Hcount & _).
  exists w'. split; [exact Hstep | exact Hcount].
Defined.

(** C8, as stated, fails: the read error that the receiver gets because
    [Close] closed the socket is counted in [ReadFail] and reported to the
    diagnostic. *)
Lemma closing_read_error_is_counted :
  match run (example_env always_ok always_ok)
            (open_idle ++ [CallClose; CloseStep]) example_world with
  | Some w =>
      recv_ready (done (svc w)) = true /\
      sock_open w = false /\
      In EvConnClose (trace w) /\
      ReadFail (stats (svc w)) = 0 /\
      match exec (example_env always_ok always_ok) ServeStep w with
      | Some w' =>
          ReadFail (stats (svc w')) = 1 /\
          diagnostics (trace w')
          = [Started "127.0.0.1:8089";
             ReadFromError "use of closed network connection"]
      | None => False
      end
  | None => False
  end.
Proof. vm_compute. repeat split. auto 20. Qed.

(** ** Close and the last batch *)




(** ** Further concrete runs of the theorems above *)


Lemma writer_write_failure_is_per_batch_witness :
  exists w',
    writer_write (example_env always_ok always_fails)
                 [example_point "cpu"] example_world = Some (tt, w') /\
    BatchesTransmitFail (stats (svc w')) = 1 /\
    BatchesTransmitted (stats (svc w')) = 0.
Proof.
  destruct (writer_write_failure_is_per_batch
              (example_env always_ok always_fails)
              [example_point "cpu"] example_world)
    as (w' & Hrun & _ & _ & Hcase & _).
  exists w'. split; [exact Hrun|].
  cbn in Hcase. destruct Hcase as (_ & Hexact & Hsame & _).
  split; [apply Hexact; unfold in_int64; cbn; lia | exact Hsame].
Defined.

(** * Further properties of the service *)

(** ** The bookkeeping is kept by every step *)

Ltac use_refl :=
  repeat match goal with
         | H : ?x = ?x -> _ |- _ => specialize (H eq_refl)
         | H : ?x = ?x \/ _ -> _ |- _ => specialize (H (or_introl eq_refl))
         | H : _ \/ ?x = ?x -> _ |- _ => specialize (H (or_intror eq_refl))
         | H : _ /\ _ |- _ => destruct H
         end.

Ltac finish_consistent :=
  cbn in *; try discriminate; use_refl; subst;
  repeat match goal with
         | |- _ /\ _ => split
         end;
  try reflexivity; try assumption; try lia;
  try solve [intuition (try discriminate; try congruence; try lia)].

Lemma exec_keeps_consistent env a w w' :
  exec env a w = Some w' ->
  consistent w ->
  consistent w'.
Proof.
  intros H (Hwg & Hmu & Hdn & Hnil & Hsock & Hcl).
  break_world w. unfold consistent, running, holds_lock in *. cbn in *.
  destruct a; cbn in H; go_unfold; unfold closed in H; cbn in H;
    split_run H; injection H as <-; try frame_parser; cbn; subst;
    cbn in *;
    try (destruct dn; cbn in *; try discriminate);
    try (destruct cpc; cbn in *; try discriminate);
    finish_consistent.
  all: try (destruct sopen; [exfalso; apply Hsock; reflexivity|]);
    try destruct spc; try destruct ppc; try destruct wpc; finish_consistent.
Qed.

Lemma new_world_consistent s :
  wg s = 0 -> mu s = false -> done s = ChanNil -> conn s = None ->
  consistent (new_world s).
Proof.
  intros Hwg Hmu Hdn Hcn. unfold consistent, running, holds_lock. cbn.
  rewrite Hwg, Hmu, Hdn, Hcn. cbn. repeat split; auto; discriminate.
Qed.

Lemma run_keeps_consistent env sched : forall w w',
  run env sched w = Some w' ->
  consistent w ->
  consistent w'.
Proof.
  induction sched as [|a sched IH]; intros w w' H Hc; cbn in H.
  - injection H as <-. assumption.
  - destruct (exec env a w) as [w1|] eqn:E; [|discriminate].
    apply (IH w1 w' H). exact (exec_keeps_consistent env a w w1 E Hc).
Qed.

(** X1.  Along every execution of a new service the wait group counts the
    running workers, so it stays between 0 and 3, and the step with which
    [Close] returns is taken only when all three workers have returned; it
    leaves the service closed, without connection or open socket, with
    [s.mu] unlocked, and with the address it was bound to still in
    [s.addr]. *)
Theorem Close_returns_after_all_workers env s sched w w' :
  wg s = 0 -> mu s = false -> done s = ChanNil -> conn s = None ->
  run env sched (new_world s) = Some w ->
  (wg (svc w) = running w /\ 0 <= wg (svc w) <= 3) /\
  (closing w = CloseWait ->
   exec env CloseStep w = Some w' ->
   (srv w, par w, wri w) = (SrvStopped, ParStopped, WrStopped) /\
   (srv w', par w', wri w') = (SrvStopped, ParStopped, WrStopped) /\
   closing w' = CloseIdle /\
   closed (svc w') = true /\
   conn (svc w') = None /\
   sock_open w' = false /\
   mu (svc w') = false /\
   Addr (svc w') = Addr (svc w)).
Proof.
  intros Hwg Hmu Hdn Hcn Hrun.
  pose proof (run_keeps_consistent env sched _ _ Hrun
                (new_world_consistent s Hwg Hmu Hdn Hcn)) as Hc.
  destruct Hc as (Hw & Hm & Hd & Hnil & Hsock & Hcl).
  split.
  - split; [exact Hw|]. rewrite Hw. unfold running.
    destruct (srv w), (par w), (wri w); lia.
  - intros Hclosing Hstep. specialize (Hcl (or_intror Hclosing)).
    break_world w. unfold running, holds_lock in *. cbn in *. subst cpc.
    go_unfold. unfold closed. cbn in Hstep.
    destruct (wgc =? 0) eqn:Hz; [|discriminate].
    apply Z.eqb_eq in Hz.
    assert (Hall : (spc, ppc, wpc) = (SrvStopped, ParStopped, WrStopped)).
    { destruct spc, ppc, wpc; try reflexivity; lia. }
    injection Hall as -> -> ->.
    cbn in Hstep. destruct dg; cbn in Hstep; injection Hstep as <-; cbn;
      repeat split; exact Hcl.
Qed.

Lemma Close_returns_after_all_workers_witness :
  wg (svc after_reopen) = 3 /\ running after_reopen = 3.
Proof.
  assert (H : run (example_env always_ok always_ok)
                  (first_batch ++ reopen_second_batch)
                  (new_world example_service) = Some after_reopen)
    by (vm_compute; reflexivity).
  destruct (Close_returns_after_all_workers _ example_service _ _
              after_reopen eq_refl eq_refl eq_refl eq_refl H)
    as [[Hw _] _].
  split; [rewrite Hw|]; reflexivity.
Defined.

(** X2.  Along every execution of a new service, whenever [closed] reports
    true and no call of [Close] is under way, no worker is running, the wait
    group is at zero, the service has no connection and the socket is
    closed. *)
Theorem closed_service_holds_nothing env s sched w :
  wg s = 0 -> mu s = false -> done s = ChanNil -> conn s = None ->
  run env sched (new_world s) = Some w ->
  closing w = CloseIdle ->
  closed (svc w) = true ->
  (srv w, par w, wri w) = (SrvStopped, ParStopped, WrStopped) /\
  wg (svc w) = 0 /\
  conn (svc w) = None /\
  sock_open w = false /\
  mu (svc w) = false.
Proof.
  intros Hwg Hmu Hdn Hcn Hrun Hidle Hclosed.
  pose proof (run_keeps_consistent env sched _ _ Hrun
                (new_world_consistent s Hwg Hmu Hdn Hcn)) as Hc.
  destruct Hc as (Hw & Hm & Hd & Hnil & Hsock & Hcl).
  unfold holds_lock in *. rewrite Hidle in *.
  unfold closed in Hclosed. rewrite Hd in Hclosed.
  assert (Hn : done (svc w) = ChanNil)
    by (destruct (done (svc w)); cbn in Hclosed; congruence).
  destruct (Hnil Hn) as [Hrun0 Hconn].
  assert (Hall : (srv w, par w, wri w) = (SrvStopped, ParStopped, WrStopped)).
  { unfold running in Hrun0. destruct (srv w), (par w), (wri w);
      try reflexivity; lia. }
  repeat split; auto.
  - congruence.
  - destruct (sock_open w); [|reflexivity]. exfalso. apply Hsock; auto.
Qed.

Lemma closed_service_holds_nothing_witness :
  match run (example_env always_ok always_ok) close_in_flight
            (new_world example_service) with
  | Some w => wg (svc w) = 0 /\ sock_open w = false
  | None => False
  end.
Proof.
  destruct (run (example_env always_ok always_ok) close_in_flight
                (new_world example_service)) as [w|] eqn:H;
    [|vm_compute in H; discriminate].
  assert (Hi : closing w = CloseIdle)
    by (vm_compute in H; injection H as <-; reflexivity).
  assert (Hc : closed (svc w) = true)
    by (vm_compute in H; injection H as <-; reflexivity).
  destruct (closed_service_holds_nothing _ example_service _ w
              eq_refl eq_refl eq_refl eq_refl H Hi Hc)
    as (_ & Hw & _ & Hs & _).
  split; assumption.
Defined.

(** ** Close holds the lock while it waits *)

Lemma exec_keeps_writer_blocked env a w w' batch :
  exec env a w = Some w' ->
  consistent w ->
  closing w <> CloseIdle ->
  wri w = WrInit batch ->
  closing w' <> CloseIdle /\
  wri w' = WrInit batch /\
  write_attempts (trace w') = write_attempts (trace w) /\
  calls is_CreateDatabase (trace w') = calls is_CreateDatabase (trace w).
Proof.
  intros H (Hwg & Hmu & Hdn & Hnil & Hsock & Hcl) Hclosing Hwri.
  break_world w. unfold running, holds_lock in *. cbn in *. subst wpc.
  assert (Hm : m = true) by (destruct cpc; [contradiction| | |]; assumption).
  subst m.
  destruct a; cbn in H; go_unfold; unfold closed in H; cbn in H;
    split_run H; injection H as <-; try frame_parser; cbn;
    rewrite ?write_attempts_app; calls_norm;
    rewrite ?app_nil_r, ?Nat.add_0_r;
    try (repeat split; try reflexivity; try discriminate; try assumption; fail).
  all: try (rewrite Hwa; rewrite ?Hcr; rewrite ?app_nil_r, ?Nat.add_0_r;
            repeat split; try reflexivity; try discriminate; assumption).
  all: subst; exfalso; destruct spc, ppc; cbn in *; lia.
Qed.

(** X3.  [Close] keeps [s.mu] locked while it waits for the workers, and the
    writer needs that lock to read [ready].  So when the writer takes a
    batch while a call of [Close] is under way, neither moves again: in
    every continuation the writer still holds the batch, nothing is written
    and [CreateDatabase] is not called, and [Close] has not returned. *)
Theorem writer_taking_batch_during_Close_blocks_both env sched : forall w w' batch,
  consistent w ->
  closing w <> CloseIdle ->
  wri w = WrInit batch ->
  run env sched w = Some w' ->
  closing w' <> CloseIdle /\
  wri w' = WrInit batch /\
  write_attempts (trace w') = write_attempts (trace w) /\
  calls is_CreateDatabase (trace w') = calls is_CreateDatabase (trace w).
Proof.
  induction sched as [|a sched IH]; intros w w' batch Hc Hclosing Hwri H;
    cbn in H.
  - injection H as <-. auto.
  - destruct (exec env a w) as [w1|] eqn:E; [|discriminate].
    destruct (exec_keeps_writer_blocked env a w w1 batch E Hc Hclosing Hwri)
      as (Hcl1 & Hw1 & Ha1 & Hn1).
    pose proof (exec_keeps_consistent env a w w1 E Hc) as Hc1.
    destruct (IH w1 w' batch Hc1 Hcl1 Hw1 H) as (Hcl' & Hw' & Ha' & Hn').
    repeat split; auto; congruence.
Qed.

Lemma writer_taking_batch_during_Close_blocks_both_witness :
  match run (example_env always_ok always_ok) writer_takes_flushed
            (new_world example_service) with
  | Some w =>
      wri w = WrInit [example_point "cpu"; example_point "mem"] /\
      closing w = CloseWait /\
      forall sched w',
        run (example_env always_ok always_ok) sched w = Some w' ->
        closing w' <> CloseIdle /\ write_attempts (trace w') = []
  | None => False
  end.
Proof.
  destruct (run (example_env always_ok always_ok) writer_takes_flushed
                (new_world example_service)) as [w|] eqn:H;
    [|vm_compute in H; discriminate].
  assert (Hc : consistent w).
  { apply (run_keeps_consistent _ _ _ _ H).
    apply new_world_consistent; reflexivity. }
  assert (Hw : wri w = WrInit [example_point "cpu"; example_point "mem"])
    by (vm_compute in H; injection H as <-; reflexivity).
  assert (Hcl : closing w = CloseWait)
    by (vm_compute in H; injection H as <-; reflexivity).
  assert (Ha : write_attempts (trace w) = [])
    by (vm_compute in H; injection H as <-; reflexivity).
  split; [exact Hw|]. split; [exact Hcl|].
  intros sched w' Hrun.
  destruct (writer_taking_batch_during_Close_blocks_both _ sched w w' _ Hc
              ltac:(rewrite Hcl; discriminate) Hw Hrun) as (H1 & _ & H2 & _).
  split; [exact H1 | rewrite H2; exact Ha].
Defined.

(** In that run nothing at all can move any more. *)
Example Close_and_writer_deadlocked :
  match run (example_env always_ok always_ok) writer_takes_flushed
            (new_world example_service) with
  | Some w =>
      forall a, exec (example_env always_ok always_ok) a w = None
  | None => False
  end.
Proof.
  vm_compute. intros a. destruct a as [| | | |c|c|r|]; try reflexivity;
    destruct c; reflexivity.
Qed.

(** ** Open *)

#[local] Arguments itoa z : simpl never.
#[local] Arguments String.append s1 s2 : simpl never.


(** X4.  A call of [Open] that returns an error starts no worker, leaves the
    wait group, the counters and the flag as they were, tells the diagnostic
    nothing, and returns with [s.mu] unlocked; the service it was called on
    reported closed, and [s.done] has been made, so that [closed] reports
    false afterwards. *)
Theorem Open_error_starts_nothing env w e w' :
  Open env w = Some (Some e, w') ->
  closed (svc w) = true /\
  (srv w', par w', wri w') = (srv w, par w, wri w) /\
  wg (svc w') = wg (svc w) /\
  stats (svc w') = stats (svc w) /\
  ready (svc w') = ready (svc w) /\
  diagnostics (trace w') = diagnostics (trace w) /\
  mu (svc w') = false /\
  done (svc w') = ChanOpen /\
  closed (svc w') = false.
Proof.
  intros H. break_world w. go_unfold. unfold closed in *. cbn in H.
  split_run H; injection H as He Hw; subst; cbn;
    rewrite ?diagnostics_app; cbn; rewrite ?app_nil_r;
    repeat split; try reflexivity;
    destruct dn; cbn in *; congruence.
Qed.

Lemma Open_error_starts_nothing_witness :
  exists e w',
    Open no_read_buffer_env read_buffer_world = Some (Some e, w') /\
    wg (svc w') = 0 /\ closed (svc w') = false.
Proof.
  destruct (Open no_read_buffer_env read_buffer_world) as [[[e|] w']|] eqn:H;
    [|vm_compute in H; discriminate|vm_compute in H; discriminate].
  exists e, w'. split; [reflexivity|].
  destruct (Open_error_starts_nothing _ _ _ _ H)
    as (_ & _ & Hwg & _ & _ & _ & _ & _ & Hcl).
  split; [rewrite Hwg; reflexivity | exact Hcl].
Defined.

(** X5.  [Open] on a closed service with a bind address and a database,
    when the address resolves, the listener binds and the read buffer (if
    one is configured) can be set: it returns nil, keeps the address and the
    connection, adds 3 to the wait group, starts the three workers, tells
    the diagnostic (when one is installed) that the service started, and
    leaves the service open with [s.mu] unlocked. *)
Theorem Open_starts_three_workers env w a c :
  let cfg := config (svc w) in
  mu (svc w) = false ->
  closed (svc w) = true ->
  BindAddress cfg <> "" ->
  Database cfg <> "" ->
  ResolveUDPAddr env (calls is_ResolveUDPAddr (trace w)) (BindAddress cfg) = Ok a ->
  ListenUDP env (calls is_ListenUDP (trace w)) a = Ok c ->
  ReadBuffer cfg = 0 \/
  SetReadBuffer env (calls is_SetReadBuffer (trace w)) c (ReadBuffer cfg) = None ->
  exists w',
    Open env w = Some (None, w') /\
    closed (svc w') = false /\
    addr (svc w') = Some a /\
    conn (svc w') = Some c /\
    (sock_open w', sock_rx w') = (true, []) /\
    wg (svc w') = wg (svc w) + 3 /\
    (srv w', par w', wri w') = (SrvStart, ParSelect, WrSelect) /\
    mu (svc w') = false /\
    diagnostics (trace w')
    = diagnostics (trace w)
      ++ (if Diagnostic (svc w) then [Started (BindAddress cfg)] else []) /\
    calls is_SetReadBuffer (trace w')
    = (calls is_SetReadBuffer (trace w)
       + if (ReadBuffer cfg =? 0)%Z then 0 else 1)%nat.
Proof.
  intros cfg0 Hmu Hcl Hb Hd Hres Hlis Hbuf. subst cfg0.
  break_world w. subst. go_unfold. unfold closed in *. cbn in *.
  rewrite Hcl. cbn.
  destruct (String.eqb_spec (BindAddress cfg) ""); [contradiction|].
  destruct (String.eqb_spec (Database cfg) ""); [contradiction|]. cbn.
  calls_norm. rewrite ?Nat.add_0_r. rewrite Hres. cbn.
  calls_norm. rewrite ?Nat.add_0_r. rewrite Hlis. cbn.
  destruct (ReadBuffer cfg =? 0) eqn:Hz; cbn.
  - destruct dg; cbn; (eexists; split; [reflexivity|]); cbn;
      rewrite ?diagnostics_app; calls_norm; cbn;
      rewrite ?app_nil_r, ?Nat.add_0_r; repeat split.
  - destruct Hbuf as [Hbuf|Hbuf]; [apply Z.eqb_neq in Hz; contradiction|].
    calls_norm. rewrite ?Nat.add_0_r. rewrite Hbuf. cbn.
    destruct dg; cbn; (eexists; split; [reflexivity|]); cbn;
      rewrite ?diagnostics_app; calls_norm; cbn;
      rewrite ?app_nil_r, ?Nat.add_0_r; repeat split; lia.
Qed.

Lemma Open_starts_three_workers_witness :
  exists w',
    Open (example_env always_ok always_ok) example_world = Some (None, w') /\
    wg (svc w') = 3 /\ closed (svc w') = false.
Proof.
  destruct (Open_starts_three_workers (example_env always_ok always_ok)
              example_world example_addr (mkUDPConn example_addr)
              eq_refl eq_refl)
    as (w' & Hopen & Hcl & _ & _ & _ & Hwg & _);
    try discriminate; try reflexivity.
  - left. reflexivity.
  - exists w'. split; [exact Hopen|]. split; [rewrite Hwg; reflexivity | exact Hcl].
Defined.



(** ** The receiver *)

#[local] Arguments MaxUDPPayload : simpl never.
#[local] Arguments len {A} l : simpl never.

Lemma firstn_min_len {A} (data : list A) (m : Z) :
  0 <= m ->
  firstn (Z.to_nat (Z.min (len data) m)) data = firstn (Z.to_nat m) data.
Proof.
  intros Hm. unfold len.
  destruct (Z.le_ge_cases (Z.of_nat (List.length data)) m) as [H|H].
  - rewrite Z.min_l by assumption. rewrite Nat2Z.id.
    rewrite firstn_all. symmetry. apply firstn_all2. lia.
  - rewrite Z.min_r by lia. reflexivity.
Qed.

(** X7.  A datagram read from the socket while the queue to the parser has
    room: the receiver adds its length (at most [MaxUDPPayload]) to
    [BytesReceived], puts a copy of its first [MaxUDPPayload] bytes, the
    whole datagram when it is no longer than that, at the back of
    [parserChan], and is at its polling [select] again; [ReadFail] and the
    diagnostic are left alone. *)
Theorem serve_queues_datagram env w data rest :
  srv w = SrvRead ->
  sock_open w = true ->
  sock_rx w = Ok data :: rest ->
  len (parserChan (svc w)) < parserChanLen ->
  exists w',
    run env [ServeStep; ServeStep] w = Some w' /\
    parserChan (svc w')
    = parserChan (svc w) ++ [firstn (Z.to_nat MaxUDPPayload) data] /\
    (len data <= MaxUDPPayload ->
     parserChan (svc w') = parserChan (svc w) ++ [data]) /\
    len (firstn (Z.to_nat MaxUDPPayload) data) <= MaxUDPPayload /\
    BytesReceived (stats (svc w'))
    = AddInt64 (BytesReceived (stats (svc w))) (Z.min (len data) MaxUDPPayload) /\
    ReadFail (stats (svc w')) = ReadFail (stats (svc w)) /\
    diagnostics (trace w') = diagnostics (trace w) /\
    sock_rx w' = rest /\
    srv w' = SrvSelect.
Proof.
  intros Hs Ho Hrx Hroom. break_world w. subst.
  cbn [run exec]. go_unfold. cbn.
  apply Z.ltb_lt in Hroom. rewrite Hroom. cbn.
  rewrite (firstn_min_len data MaxUDPPayload) by (unfold MaxUDPPayload; lia).
  eexists; split; [reflexivity|]. cbn.
  rewrite diagnostics_app. cbn. rewrite app_nil_r.
  repeat split.
  - intros Hle. f_equal. f_equal. apply firstn_all2. unfold len in Hle. lia.
  - unfold len, MaxUDPPayload. rewrite length_firstn. lia.
Qed.

Lemma serve_queues_datagram_witness :
  match run (example_env always_ok always_ok)
            (open_idle ++ [NetDeliver (Ok [Byte.x61; Byte.x62])])
            example_world with
  | Some w =>
      exists w',
        run (example_env always_ok always_ok) [ServeStep; ServeStep] w = Some w' /\
        parserChan (svc w') = [[Byte.x61; Byte.x62]]
  | None => False
  end.
Proof.
  destruct (run (example_env always_ok always_ok)
                (open_idle ++ [NetDeliver (Ok [Byte.x61; Byte.x62])])
                example_world) as [w|] eqn:H;
    [|vm_compute in H; discriminate].
  assert (Hs : srv w = SrvRead)
    by (vm_compute in H; injection H as <-; reflexivity).
  assert (Ho : sock_open w = true)
    by (vm_compute in H; injection H as <-; reflexivity).
  assert (Hrx : sock_rx w = [Ok [Byte.x61; Byte.x62]])
    by (vm_compute in H; injection H as <-; reflexivity).
  assert (Hq : parserChan (svc w) = [])
    by (vm_compute in H; injection H as <-; reflexivity).
  destruct (serve_queues_datagram (example_env always_ok always_ok) w
              [Byte.x61; Byte.x62] [] Hs Ho Hrx)
    as (w' & Hrun & _ & Hwhole & _).
  - rewrite Hq. reflexivity.
  - exists w'. split; [exact Hrun|]. rewrite Hwhole, Hq; [reflexivity|].
    vm_compute. discriminate.
Defined.

(** ** The parser *)

(** The world the body of the parser's work case returns. *)
Lemma parser_datagram_shape env buf w :
  let precision := Precision (config (svc w)) in
  let r := ParsePointsWithPrecision env (calls is_ParsePoints (trace w))
                                    buf precision in
  parser_datagram env buf w
  = Some (tt,
          match r with
          | Ok points =>
              with_trace
                (trace w ++ EvParsePoints buf precision r
                         :: map EvBatcherIn points
                         ++ [EvAtomicAdd CPointsReceived (len points)])
                (with_svc
                   (with_stats
                      (add_counter CPointsReceived (len points) (stats (svc w)))
                      (with_batcher
                         (fold_left (fun b p => batcher_In p b) points
                                    (batcher (svc w)))
                         (svc w))) w)
          | Err e =>
              with_trace
                (trace w ++ [EvParsePoints buf precision r;
                             EvAtomicAdd CPointsParseFail 1]
                         ++ (if Diagnostic (svc w)
                             then [EvDiag (ParseError e)] else []))
                (with_svc
                   (with_stats
                      (add_counter CPointsParseFail 1 (stats (svc w)))
                      (svc w)) w)
          end).
Proof.
  intros precision r. subst precision r.
  unfold parser_datagram, callParsePoints, getSvc, getTrace.
  unfold bind at 1 2 3 4. cbn [svc trace].
  destruct (ParsePointsWithPrecision env _ buf _) as [points|e] eqn:Hp.
  - unfold emit at 1, ret at 1. unfold bind at 1. rewrite forward_all.
    break_world w. go_unfold. cbn. rewrite <- !app_assoc. reflexivity.
  - break_world w. go_unfold. cbn.
    destruct dg; cbn; rewrite <- !app_assoc; reflexivity.
Qed.

Lemma parsed_app tr1 tr2 : parsed (tr1 ++ tr2) = parsed tr1 ++ parsed tr2.
Proof. apply flat_map_app. Qed.

Lemma parsed_forwarded points : parsed (map EvBatcherIn points) = [].
Proof. induction points as [|p points IH]; cbn; [reflexivity | exact IH]. Qed.

(** The decoder is called once per datagram, on that datagram. *)
Lemma parser_datagram_parsed env buf w w' :
  parser_datagram env buf w = Some (tt, w') ->
  parsed (trace w') = parsed (trace w) ++ [buf] /\
  parserChan (svc w') = parserChan (svc w) /\
  (srv w', par w', wri w', closing w') = (srv w, par w, wri w, closing w) /\
  done (svc w') = done (svc w).
Proof.
  rewrite parser_datagram_shape. cbv zeta. intros H. injection H as <-.
  destruct (ParsePointsWithPrecision env _ buf _) as [points|e];
    cbn [trace with_trace]; rewrite parsed_app.
  - cbn [parsed flat_map]. fold (parsed (map EvBatcherIn points
                                         ++ [EvAtomicAdd CPointsReceived (len points)])).
    rewrite parsed_app, parsed_forwarded. break_world w. repeat split.
  - break_world w. destruct dg; repeat split.
Qed.

Lemma serve_send_steps env w bufCopy :
  srv w = SrvSend bufCopy ->
  exec env ServeStep w
  = if len (parserChan (svc w)) <? parserChanLen
    then Some (with_srv SrvSelect
                 (with_svc (with_parserChan (parserChan (svc w) ++ [bufCopy])
                                            (svc w)) w))
    else None.
Proof.
  intros Hs. break_world w. subst. go_unfold. cbn.
  destruct (len pch <? parserChanLen); reflexivity.
Qed.

(** X8.  With [parserChanLen] datagrams queued, the receiver holding one
    more datagram cannot move, and it does not drop the datagram: after the
    parser has taken the oldest one the send goes through, behind the
    datagrams that were queued before. *)
Theorem serve_waits_for_room env w bufCopy oldest rest :
  srv w = SrvSend bufCopy ->
  par w = ParSelect ->
  parserChan (svc w) = oldest :: rest ->
  len (parserChan (svc w)) = parserChanLen ->
  exec env ServeStep w = None /\
  exists w1 w2,
    exec env (ParserStep PickWork) w = Some w1 /\
    parsed (trace w1) = parsed (trace w) ++ [oldest] /\
    exec env ServeStep w1 = Some w2 /\
    parserChan (svc w2) = rest ++ [bufCopy] /\
    srv w2 = SrvSelect.
Proof.
  intros Hs Hp Hq Hfull.
  split.
  { rewrite (serve_send_steps env w bufCopy Hs), Hfull. reflexivity. }
  pose proof (parser_datagram_shape env oldest
                (with_svc (with_parserChan rest (svc w)) w)) as Hpd.
  cbv zeta in Hpd.
  match type of Hpd with _ = Some (tt, ?x) => set (w1 := x) in * end.
  destruct (parser_datagram_parsed env oldest _ w1 Hpd)
    as (Hparsed & Hchan & Hpcs & _).
  clearbody w1. cbn in Hparsed, Hchan, Hpcs.
  assert (Hstep1 : exec env (ParserStep PickWork) w = Some w1).
  { clear - Hp Hq Hpd. break_world w. subst. go_unfold. cbn.
    cbn in Hpd. rewrite Hpd. reflexivity. }
  assert (Hsrv : srv w1 = SrvSend bufCopy) by congruence.
  assert (Hlt : (len (parserChan (svc w1)) <? parserChanLen) = true).
  { rewrite Hchan. apply Z.ltb_lt. rewrite Hq in Hfull.
    unfold len in *. cbn [List.length] in Hfull. lia. }
  exists w1. eexists. split; [exact Hstep1|]. split; [exact Hparsed|].
  rewrite (serve_send_steps env w1 bufCopy Hsrv), Hlt, Hchan.
  split; [reflexivity|]. split; reflexivity.
Qed.

Lemma serve_waits_for_room_witness :
  exec (example_env always_ok always_ok) ServeStep full_queue_world = None.
Proof.
  destruct (serve_waits_for_room (example_env always_ok always_ok)
              full_queue_world [Byte.x61] [Byte.x62] (repeat [Byte.x62] 999)
              eq_refl eq_refl eq_refl eq_refl) as [Hblocked _].
  exact Hblocked.
Defined.



(** ** Close *)

(** X10.  [Close] executes [close(s.done)] only on a channel that exists and
    is still open: a call that gets the lock either finds the service closed
    and returns at once, changing nothing, or finds [s.done] open, closes it
    and keeps the lock. *)
Theorem Close_closes_open_channel_only env w w' :
  exec env CallClose w = Some w' ->
  (closed (svc w) = true /\
   w' = with_trace (trace w ++ [EvLock; EvUnlock]) w) \/
  (done (svc w) = ChanOpen /\
   done (svc w') = ChanClosed /\
   closing w' = CloseConn /\
   mu (svc w') = true /\
   trace w' = trace w ++ [EvLock]).
Proof.
  intros H. break_world w. cbn in H. go_unfold. unfold closed in *. cbn in *.
  destruct m; [discriminate|]. cbn in H.
  destruct dn; cbn in H; injection H as <-; cbn.
  - left. rewrite <- app_assoc. auto.
  - right. repeat split.
  - left. rewrite <- app_assoc. auto.
Qed.

Lemma Close_closes_open_channel_only_witness :
  match run (example_env always_ok always_ok) open_idle example_world with
  | Some w =>
      exists w',
        exec (example_env always_ok always_ok) CallClose w = Some w' /\
        done (svc w') = ChanClosed
  | None => False
  end.
Proof.
  destruct (run (example_env always_ok always_ok) open_idle example_world)
    as [w|] eqn:H; [|vm_compute in H; discriminate].
  destruct (exec (example_env always_ok always_ok) CallClose w) as [w'|] eqn:Hc.
  - exists w'. split; [reflexivity|].
    destruct (Close_closes_open_channel_only _ _ _ Hc) as [[Hcl _]|(_ & Hd & _)];
      [|exact Hd].
    vm_compute in H. injection H as <-. vm_compute in Hcl. discriminate.
  - vm_compute in H. injection H as <-. vm_compute in Hc. discriminate.
Defined.

(** ** The counters and the calls *)













